(** * zero-dependency-node-crud: the user store of [src/app.js] and the
    persistence adapter of [src/utils/fileHandler.js].

    The embedding follows the JavaScript sources:
    - a JS number is [num]: an integer-valued double [NFin z], a double
      with a fraction [NFrac m e] (m / 2^e), the two infinities, or NaN; the
      sign of zero is not tracked (-0 === 0 in every comparison the code
      does);
    - a JS value built by [JSON.parse] (and stored in the collection) is
      [json]; a plain object is the association list of its own properties in
      property order;
    - strings are byte strings ([string] / [list ascii]): non-ASCII text is
      carried as its UTF-8 bytes;
    - the module state ([let users] of app.js) and the file [users.json]
      live in [world]; a request handler is a function [world -> response *
      world], run to completion (the source awaits inside the handlers, so
      interleavings of requests are not modelled). *)

From Stdlib Require Import ZArith String Ascii List Bool Lia.
From Stdlib Require DecimalFacts DecimalPos.
Import ListNotations.
Local Open Scope string_scope.
Local Open Scope Z_scope.
Local Open Scope list_scope.
#[local] Set Warnings "-register-all".

(* ------------------------------------------------------------------ *)
(** ** JS numbers *)

(** A double: an integer [NFin z]; a number with a fraction [NFrac m e],
    the value m / 2^e with m odd (as every such double is, with e <= 1074);
    an infinity; or NaN.  The sign of zero is not tracked. *)
Inductive num : Type :=
| NFin (z : Z)
| NFrac (m : Z) (e : positive)
| NPosInf
| NNegInf
| NNaN.

(** [-x]. *)
Definition num_neg (x : num) : num :=
  match x with
  | NFin z => NFin (- z)
  | NFrac m e => NFrac (- m) e
  | NPosInf => NNegInf
  | NNegInf => NPosInf
  | NNaN => NNaN
  end.

(** Rounding an exact integer to the nearest double (ties to even), with
    overflow to an infinity: the Number value of a numeric literal and of
    the sum of two integer-valued doubles. *)
Definition round_mag (a : Z) : Z :=
  if a <? 2 ^ 53 then a
  else
    let s := Z.log2 a - 52 in
    let q := Z.shiftr a s in
    let r := a - Z.shiftl q s in
    let h := Z.shiftl 1 (s - 1) in
    let q' := if (h <? r) || ((r =? h) && Z.odd q) then q + 1 else q in
    Z.shiftl q' s.

Definition round_double (z : Z) : num :=
  let m := round_mag (Z.abs z) in
  if 2 ^ 1024 <=? m then (if z <? 0 then NNegInf else NPosInf)
  else NFin (if z <? 0 then - m else m).

(** The number q * 2^s, for q >= 0: an integer, or a fraction in lowest
    terms. *)
Definition dyadic (q s : Z) : num :=
  if 0 <=? s then NFin (q * 2 ^ s)
  else
    let t := Z.log2 (Z.gcd q (2 ^ (- s))) in
    if t =? - s then NFin (q / 2 ^ t) else NFrac (q / 2 ^ t) (Z.to_pos (- s - t)).

(** The double nearest to the exact quotient a / b (a >= 0, b > 0), ties to
    even.  [t] is the exponent of the leading bit of a / b, [sh] the
    exponent of the last bit a double of that size has (at least -1074, the
    last bit of the subnormals), and [q] the quotient (a / b) / 2^sh rounded
    to an integer; a result of 2^1024 or more overflows to Infinity. *)
Definition round_q_mag (a b : Z) : num :=
  if a <=? 0 then NFin 0
  else
    let t := if b <=? a then Z.log2 (a / b) else - Z.log2_up (- (- b / a)) in
    let sh := Z.max (t - 52) (-1074) in
    let n := if sh <? 0 then a * 2 ^ (- sh) else a in
    let d := if sh <? 0 then b else b * 2 ^ sh in
    let q0 := n / d in
    let r := n mod d in
    let q := if (d <? 2 * r) || ((2 * r =? d) && Z.odd q0) then q0 + 1 else q0 in
    if (0 <=? sh) && (2 ^ 1024 <=? q * 2 ^ sh) then NPosInf else dyadic q sh.

(** The double nearest to the exact quotient a / b (b > 0). *)
Definition round_q (a b : Z) : num :=
  if a <? 0 then num_neg (round_q_mag (- a) b) else round_q_mag a b.

(** The exact value of a finite number as a quotient n / d with d > 0. *)
Definition num_ratio (x : num) : option (Z * Z) :=
  match x with
  | NFin z => Some (z, 1)
  | NFrac m e => Some (m, 2 ^ Zpos e)
  | _ => None
  end.

(** [x + y] on numbers. *)
Definition js_add (x y : num) : num :=
  match x, y with
  | NNaN, _ | _, NNaN => NNaN
  | NPosInf, NNegInf | NNegInf, NPosInf => NNaN
  | NPosInf, _ | _, NPosInf => NPosInf
  | NNegInf, _ | _, NNegInf => NNegInf
  | NFin a, NFin b => round_double (a + b)
  | _, _ =>
      match num_ratio x, num_ratio y with
      | Some (a, da), Some (b, db) => round_q (a * db + b * da) (da * db)
      | _, _ => NNaN (* not reached: both are finite *)
      end
  end.

(** [Math.max(x, y)]. *)
Definition js_max (x y : num) : num :=
  match x, y with
  | NNaN, _ | _, NNaN => NNaN
  | NPosInf, _ | _, NPosInf => NPosInf
  | NNegInf, v | v, NNegInf => v
  | NFin a, NFin b => NFin (Z.max a b)
  | _, _ =>
      match num_ratio x, num_ratio y with
      | Some (a, da), Some (b, db) => if a * db <? b * da then y else x
      | _, _ => NNaN (* not reached: both are finite *)
      end
  end.

(** [x === y] on numbers. *)
Definition num_eqb (x y : num) : bool :=
  match x, y with
  | NFin a, NFin b => Z.eqb a b
  | NFrac m e, NFrac m' e' => Z.eqb m m' && Pos.eqb e e'
  | NPosInf, NPosInf | NNegInf, NNegInf => true
  | _, _ => false
  end.

(* ------------------------------------------------------------------ *)
(** ** JS values built by JSON.parse *)

Inductive json : Type :=
| JNull
| JBool (b : bool)
| JNum (n : num)
| JStr (s : string)
| JArr (l : list json)
| JObj (fields : list (string * json)).

(** A plain object: its own properties in property order. *)
Definition obj : Type := list (string * json).

(** Property read [o.k] on an object; [None] is [undefined]. *)
Fixpoint get (o : obj) (k : string) : option json :=
  match o with
  | [] => None
  | (k', v) :: o' => if String.eqb k k' then Some v else get o' k
  end.

(** Property write [o.k = v]: an existing property keeps its place, a new
    one is added last. *)
Fixpoint set (o : obj) (k : string) (v : json) : obj :=
  match o with
  | [] => [(k, v)]
  | (k', v') :: o' =>
      if String.eqb k k' then (k', v) :: o' else (k', v') :: set o' k v
  end.

(** Truthiness of a value ([undefined] is [None]). *)
Definition truthy (v : option json) : bool :=
  match v with
  | None | Some JNull => false
  | Some (JBool b) => b
  | Some (JNum (NFin z)) => negb (Z.eqb z 0)
  | Some (JNum NNaN) => false
  | Some (JNum _) => true
  | Some (JStr s) => negb (String.eqb s EmptyString)
  | Some (JArr _) | Some (JObj _) => true
  end.

(** [ToNumber] as [Math.max] applies it to [user.id].  [None]: the coercion
    of a string, array or object, which this development does not model. *)
Definition to_number (v : option json) : option num :=
  match v with
  | None => Some NNaN
  | Some JNull => Some (NFin 0)
  | Some (JBool b) => Some (NFin (if b then 1 else 0))
  | Some (JNum n) => Some n
  | Some _ => None
  end.

(* ------------------------------------------------------------------ *)
(** ** JSON.stringify(value, null, 2) *)

Definition chr (n : nat) : ascii := ascii_of_nat n.
Definition dquote : ascii := chr 34.
Definition bslash : ascii := chr 92.
Definition newline : ascii := chr 10.
Definition space : ascii := chr 32.

Definition lit (s : string) : list ascii := list_ascii_of_string s.

Definition hex_digit (n : nat) : ascii :=
  if Nat.ltb n 10 then chr (48 + n) else chr (87 + n).

(** One character of QuoteJSONString. *)
Definition escape_char (c : ascii) : list ascii :=
  let n := nat_of_ascii c in
  if Nat.eqb n 34 then [bslash; dquote]
  else if Nat.eqb n 92 then [bslash; bslash]
  else if Nat.eqb n 8 then [bslash; "b"%char]
  else if Nat.eqb n 9 then [bslash; "t"%char]
  else if Nat.eqb n 10 then [bslash; "n"%char]
  else if Nat.eqb n 12 then [bslash; "f"%char]
  else if Nat.eqb n 13 then [bslash; "r"%char]
  else if Nat.ltb n 32 then
    [bslash; "u"%char; "0"%char; "0"%char; hex_digit (n / 16); hex_digit (n mod 16)]
  else [c].

Definition quote (s : string) : list ascii :=
  dquote :: flat_map escape_char (list_ascii_of_string s) ++ [dquote].

Fixpoint uint_chars (d : Decimal.uint) : list ascii :=
  match d with
  | Decimal.Nil => []
  | Decimal.D0 d => "0"%char :: uint_chars d
  | Decimal.D1 d => "1"%char :: uint_chars d
  | Decimal.D2 d => "2"%char :: uint_chars d
  | Decimal.D3 d => "3"%char :: uint_chars d
  | Decimal.D4 d => "4"%char :: uint_chars d
  | Decimal.D5 d => "5"%char :: uint_chars d
  | Decimal.D6 d => "6"%char :: uint_chars d
  | Decimal.D7 d => "7"%char :: uint_chars d
  | Decimal.D8 d => "8"%char :: uint_chars d
  | Decimal.D9 d => "9"%char :: uint_chars d
  end.

(** An optional minus sign and the decimal digits of |z|, with no leading
    zero. *)
Definition int_chars (z : Z) : list ascii :=
  match z with
  | Z0 => ["0"%char]
  | Zpos p => uint_chars (Pos.to_uint p)
  | Zneg p => "-"%char :: uint_chars (Pos.to_uint p)
  end.

(** The decimal digits of a positive integer. *)
Definition pos_digits (s : Z) : list ascii := uint_chars (Pos.to_uint (Z.to_pos s)).

(** The number (-1)^neg * m * 10^e (m >= 0) rounded to the nearest double:
    the Number value of a numeric literal. *)
Definition dec_value (neg : bool) (m e : Z) : num :=
  let v := if 0 <=? e then round_double (m * 10 ^ e) else round_q m (10 ^ (- e)) in
  if neg then num_neg v else v.

(** The number s * 10^e as [(s', e')] with the trailing zeros of s moved
    into the exponent. *)
Fixpoint strip10 (fuel : nat) (s e : Z) : Z * Z :=
  match fuel with
  | O => (s, e)
  | S f => if (0 <? s) && (s mod 10 =? 0) then strip10 f (s / 10) (e + 1) else (s, e)
  end.

(** Whether the decimal s * 10^e reads back as [x]. *)
Definition reads_as (x : num) (s e : Z) : bool := num_eqb (dec_value false s e) x.

(** Step 5 of Number::toString for a positive finite [x] whose exact value is
    m * 10^(n0 - D), m having D digits: for k = 1, 2, ... the two k-digit
    decimals next to x, m truncated to k digits (lo) and one more (lo + 1),
    the value being s * 10^(n0 - k); the first k for which one of them reads
    back as x gives s, and when both do the one closer to x, or on a tie the
    even one.  The result is s without trailing zeros and its exponent. *)
Fixpoint shortest_from (x : num) (m D n0 k : Z) (fuel : nat) : Z * Z :=
  match fuel with
  | O => (m, n0 - D) (* not reached: for k = D, lo is m itself *)
  | S f =>
      let sc := 10 ^ (D - k) in
      let lo := m / sc in
      let r := m mod sc in
      let '(slo, elo) := strip10 (Z.to_nat k) lo (n0 - k) in
      let '(shi, ehi) := strip10 (S (Z.to_nat k)) (lo + 1) (n0 - k) in
      let ok_lo := reads_as x slo elo in
      let ok_hi := reads_as x shi ehi in
      if ok_lo && ok_hi then
        if r <? sc - r then (slo, elo)
        else if sc - r <? r then (shi, ehi)
        else if Z.even lo then (slo, elo) else (shi, ehi)
      else if ok_lo then (slo, elo)
      else if ok_hi then (shi, ehi)
      else shortest_from x m D n0 (k + 1) f
  end.

Definition shortest (x : num) : Z * Z :=
  let '(m, p) :=
    match x with
    | NFin z => (z, 0)
    | NFrac m e => (m * 5 ^ Zpos e, Zpos e)
    | _ => (0, 0)
    end in
  let D := Z.of_nat (length (pos_digits m)) in
  shortest_from x m D (D - p) 1 (Z.to_nat D).

Definition num_abs (x : num) : num :=
  match x with
  | NFin z => NFin (Z.abs z)
  | NFrac m e => NFrac (Z.abs m) e
  | _ => x
  end.

Definition num_is_neg (x : num) : bool :=
  match x with
  | NFin z => z <? 0
  | NFrac m _ => m <? 0
  | _ => false
  end.

(** The exponent part [e+x] / [e-x]. *)
Definition exponent_chars (x : Z) : list ascii :=
  "e"%char :: (if x <? 0 then "-"%char else "+"%char) :: pos_digits (Z.abs x).

(** Steps 6 to 10 of Number::toString, for the digits [ds] of s (k of them)
    and the position [n] of the decimal point (the value is s * 10^(n - k)). *)
Definition format_digits (ds : list ascii) (n : Z) : list ascii :=
  let k := Z.of_nat (length ds) in
  if (k <=? n) && (n <=? 21) then ds ++ repeat "0"%char (Z.to_nat (n - k))
  else if (0 <? n) && (n <=? 21) then
    firstn (Z.to_nat n) ds ++ "."%char :: skipn (Z.to_nat n) ds
  else if (-6 <? n) && (n <=? 0) then
    "0"%char :: "."%char :: repeat "0"%char (Z.to_nat (- n)) ++ ds
  else
    match ds with
    | [d] => d :: exponent_chars (n - 1)
    | d :: ds' => d :: "."%char :: ds' ++ exponent_chars (n - 1)
    | [] => []
    end.

(** Number::toString(x) for a finite number; a non-finite number is written
    [null] by SerializeJSONProperty. *)
Definition number_chars (x : num) : list ascii :=
  match x with
  | NFin Z0 => ["0"%char]
  | NFin _ | NFrac _ _ =>
      let '(s, e) := shortest (num_abs x) in
      let ds := pos_digits s in
      (if num_is_neg x then ["-"%char] else [])
      ++ format_digits ds (e + Z.of_nat (length ds))
  | _ => lit "null"
  end.

Definition indent (d : nat) : list ascii := repeat space (2 * d).

(** SerializeJSONProperty with the gap of two spaces, at nesting depth [d]. *)
Fixpoint stringify (d : nat) (v : json) {struct v} : list ascii :=
  match v with
  | JNull => lit "null"
  | JBool true => lit "true"
  | JBool false => lit "false"
  | JNum n => number_chars n
  | JStr s => quote s
  | JArr [] => lit "[]"
  | JArr (x :: xs) =>
      "["%char :: newline :: indent (S d) ++ stringify (S d) x
      ++ flat_map (fun y => ","%char :: newline :: indent (S d) ++ stringify (S d) y) xs
      ++ newline :: indent d ++ ["]"%char]
  | JObj [] => lit "{}"
  | JObj ((k, x) :: kvs) =>
      "{"%char :: newline :: indent (S d) ++ quote k ++ lit ": " ++ stringify (S d) x
      ++ flat_map (fun kv => ","%char :: newline :: indent (S d) ++ quote (fst kv)
                             ++ lit ": " ++ stringify (S d) (snd kv)) kvs
      ++ newline :: indent d ++ ["}"%char]
  end.

(** [JSON.stringify(data, null, 2)]. *)
Definition json_stringify (v : json) : string :=
  string_of_list_ascii (stringify 0 v).

(* ------------------------------------------------------------------ *)
(** ** JSON.parse(text) *)

(** A parse step: [PErr] is the SyntaxError JSON.parse throws; [PUns] is a
    text JSON.parse accepts whose value this development does not represent
    (a string with an unpaired surrogate escape such as [\ud800], which has
    no UTF-8 form); [POk a rest] read [a] and left [rest]. *)
Inductive pres (A : Type) : Type :=
| PErr
| PUns
| POk (a : A) (rest : list ascii).
Arguments PErr {A}.
Arguments PUns {A}.
Arguments POk {A} a rest.

Definition is_ws (c : ascii) : bool :=
  let n := nat_of_ascii c in
  Nat.eqb n 32 || Nat.eqb n 9 || Nat.eqb n 10 || Nat.eqb n 13.

Fixpoint skip_ws (cs : list ascii) : list ascii :=
  match cs with
  | c :: r => if is_ws c then skip_ws r else cs
  | [] => []
  end.

(** [cs] with the literal [p] removed from its front, if it starts with it. *)
Fixpoint strip (p cs : list ascii) : option (list ascii) :=
  match p, cs with
  | [], _ => Some cs
  | a :: p', c :: cs' => if Ascii.eqb a c then strip p' cs' else None
  | _ :: _, [] => None
  end.

Definition digit_cons (c : ascii) (u : Decimal.uint) : option Decimal.uint :=
  match nat_of_ascii c with
  | 48 => Some (Decimal.D0 u) | 49 => Some (Decimal.D1 u)
  | 50 => Some (Decimal.D2 u) | 51 => Some (Decimal.D3 u)
  | 52 => Some (Decimal.D4 u) | 53 => Some (Decimal.D5 u)
  | 54 => Some (Decimal.D6 u) | 55 => Some (Decimal.D7 u)
  | 56 => Some (Decimal.D8 u) | 57 => Some (Decimal.D9 u)
  | _ => None
  end%nat.

Definition is_digit (c : ascii) : bool :=
  match digit_cons c Decimal.Nil with Some _ => true | None => false end.

(** The longest run of decimal digits at the front of [cs]. *)
Fixpoint digits (cs : list ascii) : Decimal.uint * list ascii :=
  match cs with
  | c :: r =>
      if is_digit c then
        let (u, r') := digits r in
        match digit_cons c u with Some u' => (u', r') | None => (u, r') end
      else (Decimal.Nil, cs)
  | [] => (Decimal.Nil, [])
  end.

(** The longest run of decimal digits at the front of [cs], as characters. *)
Fixpoint span_digits (cs : list ascii) : list ascii * list ascii :=
  match cs with
  | c :: r =>
      if is_digit c then let (ds, r') := span_digits r in (c :: ds, r')
      else ([], cs)
  | [] => ([], [])
  end.

Definition digit_value (c : ascii) : Z := Z.of_nat (nat_of_ascii c) - 48.

(** The integer a run of decimal digits denotes. *)
Definition digits_val (ds : list ascii) : Z :=
  fold_left (fun acc c => acc * 10 + digit_value c) ds 0.

(** The rest of a number literal after its integer part [int]: an optional
    fraction [.digits] and an optional exponent [e] or [E], an optional sign
    and digits; the value, int.frac * 10^exp, is rounded to the nearest
    double. *)
Definition number_tail (neg : bool) (int r : list ascii) : pres json :=
  let frac_part :=
    match r with
    | c :: r1 =>
        if Ascii.eqb c "."%char then
          match span_digits r1 with
          | ([], _) => None
          | (fs, r2) => Some (fs, r2)
          end
        else Some ([], r)
    | [] => Some ([], [])
    end in
  match frac_part with
  | None => PErr
  | Some (frac, r2) =>
      let m := digits_val (int ++ frac) in
      let shift := Z.of_nat (length frac) in
      match r2 with
      | c :: r3 =>
          if Ascii.eqb c "e"%char || Ascii.eqb c "E"%char then
            let '(eneg, r4) :=
              match r3 with
              | c' :: r4 =>
                  if Ascii.eqb c' "-"%char then (true, r4)
                  else if Ascii.eqb c' "+"%char then (false, r4)
                  else (false, r3)
              | [] => (false, [])
              end in
            match span_digits r4 with
            | ([], _) => PErr
            | (es, r5) =>
                let x := digits_val es in
                POk (JNum (dec_value neg m ((if eneg then - x else x) - shift))) r5
            end
          else POk (JNum (dec_value neg m (- shift))) r2
      | [] => POk (JNum (dec_value neg m (- shift))) []
      end
  end.

(** A number literal: an optional minus sign, then a lone 0 or a run of
    digits that does not start with 0, then [number_tail]. *)
Definition parse_number (cs : list ascii) : pres json :=
  let '(neg, cs1) :=
    match cs with
    | c :: r => if Ascii.eqb c "-"%char then (true, r) else (false, cs)
    | [] => (false, cs)
    end in
  match cs1 with
  | c :: r =>
      if Ascii.eqb c "0"%char then number_tail neg [c] r
      else if is_digit c then let (ds, r') := span_digits r in number_tail neg (c :: ds) r'
      else PErr
  | [] => PErr
  end.

Definition hex_val (c : ascii) : option nat :=
  (let n := nat_of_ascii c in
  if (48 <=? n) && (n <=? 57) then Some (n - 48)
  else if (97 <=? n) && (n <=? 102) then Some (n - 87)
  else if (65 <=? n) && (n <=? 70) then Some (n - 55)
  else None)%nat.

(** The value of four hexadecimal digits. *)
Definition hex4 (h1 h2 h3 h4 : ascii) : option N :=
  match hex_val h1, hex_val h2, hex_val h3, hex_val h4 with
  | Some a, Some b, Some c, Some d =>
      Some (((N.of_nat a * 16 + N.of_nat b) * 16 + N.of_nat c) * 16 + N.of_nat d)%N
  | _, _, _, _ => None
  end.

(** The UTF-8 bytes of the code point [c]. *)
Definition utf8_encode (c : N) : list ascii :=
  (if c <? 128 then [ascii_of_N c]
   else if c <? 2048 then [ascii_of_N (192 + c / 64); ascii_of_N (128 + c mod 64)]
   else if c <? 65536 then
     [ascii_of_N (224 + c / 4096); ascii_of_N (128 + (c / 64) mod 64);
      ascii_of_N (128 + c mod 64)]
   else
     [ascii_of_N (240 + c / 262144); ascii_of_N (128 + (c / 4096) mod 64);
      ascii_of_N (128 + (c / 64) mod 64); ascii_of_N (128 + c mod 64)])%N.

Definition pcons {A} (a : A) (p : pres (list A)) : pres (list A) :=
  match p with
  | POk l r => POk (a :: l) r
  | PErr => PErr
  | PUns => PUns
  end.

Definition pprefix (l : list ascii) (p : pres (list ascii)) : pres (list ascii) :=
  fold_right pcons p l.

(** The characters of a string literal after its opening quote, as UTF-8
    bytes: a raw character is kept, a [\u] escape gives the UTF-8 bytes of
    its code point (of the pair's code point for a surrogate pair
    [\uD8xx\uDCxx]).  A surrogate escape outside a pair (UTF-16 text with no
    UTF-8 form) is [PUns] when [exact], and read as U+FFFD otherwise: that
    mode only checks the grammar. *)
Fixpoint parse_chars (exact : bool) (cs : list ascii) : pres (list ascii) :=
  match cs with
  | [] => PErr
  | c :: r =>
      if Ascii.eqb c dquote then POk [] r
      else if Ascii.eqb c bslash then
        match r with
        | [] => PErr
        | e :: r' =>
            if Ascii.eqb e dquote then pcons dquote (parse_chars exact r')
            else if Ascii.eqb e bslash then pcons bslash (parse_chars exact r')
            else if Ascii.eqb e "/"%char then pcons "/"%char (parse_chars exact r')
            else if Ascii.eqb e "b"%char then pcons (chr 8) (parse_chars exact r')
            else if Ascii.eqb e "f"%char then pcons (chr 12) (parse_chars exact r')
            else if Ascii.eqb e "n"%char then pcons (chr 10) (parse_chars exact r')
            else if Ascii.eqb e "r"%char then pcons (chr 13) (parse_chars exact r')
            else if Ascii.eqb e "t"%char then pcons (chr 9) (parse_chars exact r')
            else if Ascii.eqb e "u"%char then
              match r' with
              | h1 :: h2 :: h3 :: h4 :: r'' =>
                  match hex4 h1 h2 h3 h4 with
                  | None => PErr
                  | Some u =>
                      let lone (_ : unit) :=
                        if exact then PUns
                        else pprefix (utf8_encode 65533%N) (parse_chars exact r'') in
                      if (u <? 55296)%N || (57344 <=? u)%N then
                        pprefix (utf8_encode u) (parse_chars exact r'')
                      else if (56320 <=? u)%N then lone tt
                      else
                        match r'' with
                        | b :: v :: l1 :: l2 :: l3 :: l4 :: r4 =>
                            if Ascii.eqb b bslash && Ascii.eqb v "u"%char then
                              match hex4 l1 l2 l3 l4 with
                              | Some l =>
                                  if (56320 <=? l)%N && (l <? 57344)%N then
                                    pprefix (utf8_encode (65536 + (u - 55296) * 1024 + (l - 56320))%N)
                                      (parse_chars exact r4)
                                  else lone tt
                              | None => lone tt
                              end
                            else lone tt
                        | _ => lone tt
                        end
                  end
              | _ => PErr
              end
            else PErr
        end
      else if (nat_of_ascii c <? 32)%nat then PErr
      else pcons c (parse_chars exact r)
  end.

Definition pmap {A B} (f : A -> B) (p : pres A) : pres B :=
  match p with
  | POk a r => POk (f a) r
  | PErr => PErr
  | PUns => PUns
  end.

(** A JSON value after optional white space; arrays and objects read their
    elements with [parse_elems] and [parse_members].  Object members are
    stored with [set], so a repeated key keeps its first place and its last
    value, as JSON.parse does.  The fuel bounds the nesting; [json_parse]
    gives enough of it for its text. *)
Fixpoint parse_value (exact : bool) (fuel : nat) (cs : list ascii) {struct fuel} : pres json :=
  match fuel with
  | O => PUns
  | S f =>
      let cs := skip_ws cs in
      match strip (lit "null") cs with
      | Some r => POk JNull r
      | None =>
      match strip (lit "true") cs with
      | Some r => POk (JBool true) r
      | None =>
      match strip (lit "false") cs with
      | Some r => POk (JBool false) r
      | None =>
      match cs with
      | [] => PErr
      | c :: r =>
          if Ascii.eqb c dquote then
            pmap (fun s => JStr (string_of_list_ascii s)) (parse_chars exact r)
          else if Ascii.eqb c "["%char then
            match skip_ws r with
            | c' :: r' => if Ascii.eqb c' "]"%char then POk (JArr []) r'
                          else parse_elems exact f r []
            | [] => PErr
            end
          else if Ascii.eqb c "{"%char then
            match skip_ws r with
            | c' :: r' => if Ascii.eqb c' "}"%char then POk (JObj []) r'
                          else parse_members exact f r []
            | [] => PErr
            end
          else parse_number cs
      end end end end
  end
with parse_elems (exact : bool) (fuel : nat) (cs : list ascii) (acc : list json) {struct fuel}
  : pres json :=
  match fuel with
  | O => PUns
  | S f =>
      match parse_value exact f cs with
      | POk v r =>
          match skip_ws r with
          | c :: r' =>
              if Ascii.eqb c ","%char then parse_elems exact f r' (acc ++ [v])
              else if Ascii.eqb c "]"%char then POk (JArr (acc ++ [v])) r'
              else PErr
          | [] => PErr
          end
      | PErr => PErr
      | PUns => PUns
      end
  end
with parse_members (exact : bool) (fuel : nat) (cs : list ascii) (acc : obj) {struct fuel}
  : pres json :=
  match fuel with
  | O => PUns
  | S f =>
      match skip_ws cs with
      | c :: r =>
          if Ascii.eqb c dquote then
            match parse_chars exact r with
            | POk k r1 =>
                match skip_ws r1 with
                | c1 :: r2 =>
                    if Ascii.eqb c1 ":"%char then
                      match parse_value exact f r2 with
                      | POk v r3 =>
                          let acc' := set acc (string_of_list_ascii k) v in
                          match skip_ws r3 with
                          | c3 :: r4 =>
                              if Ascii.eqb c3 ","%char then parse_members exact f r4 acc'
                              else if Ascii.eqb c3 "}"%char then POk (JObj acc') r4
                              else PErr
                          | [] => PErr
                          end
                      | PErr => PErr
                      | PUns => PUns
                      end
                    else PErr
                | [] => PErr
                end
            | PErr => PErr
            | PUns => PUns
            end
          else PErr
      | [] => PErr
      end
  end.

(** [JSON.parse(text)]: one value, then only white space.  The text is first
    read in the mode that only checks the grammar: a text that is not JSON
    is [PErr]; a JSON text is then read exactly, [PUns] when its value is
    not represented. *)
Definition json_parse (s : string) : pres json :=
  let cs := list_ascii_of_string s in
  let fuel := S (2 * length cs) in
  match parse_value false fuel cs with
  | POk _ r =>
      match skip_ws r with
      | [] =>
          match parse_value true fuel cs with
          | POk v _ => POk v []
          | _ => PUns
          end
      | _ => PErr
      end
  | PErr => PErr
  | PUns => PUns (* not reached: the fuel suffices *)
  end.

(* ------------------------------------------------------------------ *)
(** ** The persistence adapter: [src/utils/fileHandler.js] *)

(** The file [users.json]: missing ([ENOENT]), present with its text, or
    failing to read with another error code. *)
Inductive disk : Type :=
| Absent
| Present (content : string)
| Unreadable (code : string).

(** How [fs.promises.writeFile] rejects, with the error's message.  It
    opens the file with the flag ['w'] (truncating it), then writes the text:
    either the open fails and the file is left as it was, or a write fails
    after the open, when the file holds the first [n] bytes of the text. *)
Inductive fault : Type :=
| OpenFail (msg : string)
| WriteFail (msg : string) (n : nat).

Definition fault_message (f : fault) : string :=
  match f with
  | OpenFail m => m
  | WriteFail m _ => m
  end.

(** The file after a write of [text] that rejected with [f]. *)
Definition file_after (f : fault) (old : disk) (text : string) : disk :=
  match f with
  | OpenFail _ => old
  | WriteFail _ n => Present (substring 0 n text)
  end.

(** The process state: the module variable [users] of app.js, the file,
    whether [fs.promises.writeFile] rejects (and how), and the text of every
    [writeFile] call so far. *)
Record world : Type := mkWorld {
  users : list obj;
  file : disk;
  write_fault : option fault;
  writes : list string
}.

Definition with_users (w : world) (l : list obj) : world :=
  mkWorld l (file w) (write_fault w) (writes w).

(** [writeData(data)]: [None] when the write resolved, [Some msg] when it
    rejected with the message [msg]. *)
Definition writeData (data : list obj) (w : world) : option string * world :=
  let text := json_stringify (JArr (map JObj data)) in
  match write_fault w with
  | None => (None, mkWorld (users w) (Present text) None (writes w ++ [text]))
  | Some f =>
      (Some (fault_message f),
       mkWorld (users w) (file_after f (file w) text) (Some f) (writes w ++ [text]))
  end.

(** What [readData()] settles to: a value, a thrown error, or (on a JSON
    text [json_parse] reports [PUns]) a value outside this development. *)
Inductive read_result : Type :=
| RdOk (v : json)
| RdThrow (err : string)
| RdUns.

Definition readData (w : world) : read_result :=
  match file w with
  | Absent => RdOk (JArr [])
  | Unreadable code => RdThrow code
  | Present data =>
      if negb (String.eqb data EmptyString) then
        match json_parse data with
        | POk v _ => RdOk v
        | PErr => RdThrow "SyntaxError"
        | PUns => RdUns
        end
      else RdOk (JArr [])
  end.

(* ------------------------------------------------------------------ *)
(** ** Startup: [initializeServer] of app.js *)

Inductive startup : Type :=
| Serving (initial : json)
| ServingUns
| Exited (code : Z).

Definition initializeServer (w : world) : startup :=
  match readData w with
  | RdOk v => Serving v
  | RdThrow _ => Exited 1
  | RdUns => ServingUns
  end.

(* ------------------------------------------------------------------ *)
(** ** The route handlers of app.js *)

(** What a handler does with [res]: [sendJSON(res, status, body)], the bare
    204 of [deleteUser], a rejection nobody catches, or [RespUns] when the
    handler met a coercion this development does not model. *)
Inductive response : Type :=
| Send (status : Z) (body : json)
| NoContent
| Unhandled (err : string)
| RespUns.

Definition message (m : string) : json := JObj [("message", JStr m)].

Definition not_found : response := Send 404 (message "User Not Found").
Definition name_required : response := Send 400 (message "Name is a required field").
Definition null_name : response :=
  Send 400 (message "Cannot read properties of null (reading 'name')").

(** [u => u.id === id]. *)
Definition id_is (id : num) (u : obj) : bool :=
  match get u "id" with
  | Some (JNum n) => num_eqb n id
  | _ => false
  end.

(** [Array.prototype.findIndex]; [None] is -1. *)
Fixpoint findIndex (f : obj -> bool) (l : list obj) : option nat :=
  match l with
  | [] => None
  | x :: l' => if f x then Some O else option_map S (findIndex f l')
  end.

Definition getAllUsers (w : world) : response * world :=
  (Send 200 (JArr (map JObj (users w))), w).

Definition getUserById (id : num) (w : world) : response * world :=
  match find (id_is id) (users w) with
  | Some u => (Send 200 (JObj u), w)
  | None => (not_found, w)
  end.

(** The reducer [(max, user) => Math.max(max, user.id)]. *)
Definition max_step (acc : option num) (u : obj) : option num :=
  match acc, to_number (get u "id") with
  | Some m, Some n => Some (js_max m n)
  | _, _ => None
  end.

(** [users.reduce((max, user) => Math.max(max, user.id), 0)]. *)
Definition max_id (l : list obj) : option num :=
  fold_left max_step l (Some (NFin 0)).

(** [createUser], given the value [parseRequestBody] resolved to. *)
Definition createUser (newUser : json) (w : world) : response * world :=
  match newUser with
  | JNull => (null_name, w)
  | JObj fs =>
      if negb (truthy (get fs "name")) then (name_required, w)
      else
        match max_id (users w) with
        | None => (RespUns, w)
        | Some maxId =>
            let created := set fs "id" (JNum (js_add maxId (NFin 1))) in
            let w1 := with_users w (users w ++ [created]) in
            match writeData (users w1) w1 with
            | (None, w2) => (Send 201 (JObj created), w2)
            | (Some e, w2) => (Send 400 (message e), w2)
            end
        end
  | _ => (name_required, w)
  end.

(** [updateUser]: the index is looked up before the body is read. *)
Definition updateUser (id : num) (updatedData : json) (w : world) : response * world :=
  match findIndex (id_is id) (users w) with
  | None => (not_found, w)
  | Some i =>
      match updatedData with
      | JNull => (null_name, w)
      | JObj fs =>
          match get fs "name" with
          | Some nm =>
              if negb (truthy (Some nm)) then (name_required, w)
              else
                match nth_error (users w) i with
                | Some u =>
                    let u' := set u "name" nm in
                    let w1 := with_users w (firstn i (users w) ++ u' :: skipn (S i) (users w)) in
                    match writeData (users w1) w1 with
                    | (None, w2) => (Send 200 (JObj u'), w2)
                    | (Some e, w2) => (Send 400 (message e), w2)
                    end
                | None => (not_found, w) (* findIndex gave an index in range *)
                end
          | None => (name_required, w)
          end
      | _ => (name_required, w)
      end
  end.

(** [deleteUser]: [users.splice(userIndex, 1)]; its [writeData] is awaited
    outside any try/catch, so a failed write is an unhandled rejection. *)
Definition deleteUser (id : num) (w : world) : response * world :=
  match findIndex (id_is id) (users w) with
  | Some i =>
      let w1 := with_users w (firstn i (users w) ++ skipn (S i) (users w)) in
      match writeData (users w1) w1 with
      | (None, w2) => (NoContent, w2)
      | (Some e, w2) => (Unhandled e, w2)
      end
  | None => (not_found, w)
  end.

(* ------------------------------------------------------------------ *)
(** ** Values that survive [JSON.stringify] then [JSON.parse] *)

(** A finite number that is a double: an integer or a fraction m / 2^e that
    rounds to itself. *)
Definition finite_num (n : num) : bool :=
  match n with
  | NFin z => match round_double z with NFin z' => Z.eqb z z' | _ => false end
  | NFrac m e =>
      match round_q m (2 ^ Zpos e) with
      | NFrac m' e' => Z.eqb m m' && Pos.eqb e e'
      | _ => false
      end
  | _ => false
  end.

Fixpoint nodup_keys (l : list string) : bool :=
  match l with
  | [] => true
  | k :: l' => negb (existsb (String.eqb k) l') && nodup_keys l'
  end.

(** Every number finite and, as in any JS object, no key twice. *)
Fixpoint wf_json (v : json) : bool :=
  match v with
  | JNum n => finite_num n
  | JArr l => forallb wf_json l
  | JObj kvs => nodup_keys (map fst kvs) && forallb (fun kv => wf_json (snd kv)) kvs
  | _ => true
  end.

Fixpoint jsize (v : json) : nat :=
  match v with
  | JArr l => S (list_sum (map (fun x => S (jsize x)) l))
  | JObj kvs => S (list_sum (map (fun kv => S (jsize (snd kv))) kvs))
  | _ => 1
  end.

(* ------------------------------------------------------------------ *)
(** ** Ids *)

(** Two [id] values no lookup [u => u.id === id] can tell apart: some
    number [id] is [===] to both. *)
Definition id_clash (a b : option json) : bool :=
  match a, b with
  | Some (JNum x), Some (JNum y) => num_eqb x y
  | _, _ => false
  end.

Fixpoint ids_nodup (l : list (option json)) : bool :=
  match l with
  | [] => true
  | a :: l' => negb (existsb (id_clash a) l') && ids_nodup l'
  end.

(** No two records of the collection share an id. *)
Definition ids_distinct (l : list obj) : bool :=
  ids_nodup (map (fun u => get u "id") l).

(** An integer id below [Number.MAX_SAFE_INTEGER] (2^53 - 1). *)
Definition safe_id (v : option json) : bool :=
  match v with
  | Some (JNum (NFin z)) => z <? 2 ^ 53 - 1
  | _ => false
  end.

Definition safe_ids (l : list obj) : bool :=
  forallb (fun u => safe_id (get u "id")) l.

(** max(existing integer ids, default 0). *)
Definition id_max_step (acc : Z) (u : obj) : Z :=
  match get u "id" with
  | Some (JNum (NFin z)) => Z.max acc z
  | _ => acc
  end.

Definition id_max (l : list obj) : Z := fold_left id_max_step l 0.

(** A world with the given records, the file holding nothing yet, and
    writes succeeding. *)
Definition fresh_world (l : list obj) : world := mkWorld l Absent None [].

(* ------------------------------------------------------------------ *)
(** ** Requests: [parseRequestBody] and the router [serverHandler] *)

(** What [parseRequestBody(req)] settles to, given the whole body text: the
    parsed value, or a rejection with [new Error('Invalid JSON')]; [BodyUns]
    when [json_parse] reports a text outside this development. A stream error
    of the request is not modelled. *)
Inductive body_result : Type :=
| BodyOk (v : json)
| BodyErr (msg : string)
| BodyUns.

Definition parseRequestBody (body : string) : body_result :=
  if String.eqb body "" then BodyOk (JObj [])
  else
    match json_parse body with
    | POk v _ => BodyOk v
    | PErr => BodyErr "Invalid JSON"
    | PUns => BodyUns
    end.

(** [createUser(req, res)]: the body is parsed inside the handler's
    try/catch, whose catch answers 400 with the error's message. *)
Definition createUser_req (body : string) (w : world) : response * world :=
  match parseRequestBody body with
  | BodyOk v => createUser v w
  | BodyErr m => (Send 400 (message m), w)
  | BodyUns => (RespUns, w)
  end.

(** [updateUser(req, res, id)]: the index is looked up first (404 without
    reading the body), then the body is parsed inside the try/catch; the
    rest is [updateUser] on the parsed value, whose own lookup finds the
    same index. *)
Definition updateUser_req (id : num) (body : string) (w : world) : response * world :=
  match findIndex (id_is id) (users w) with
  | None => (not_found, w)
  | Some _ =>
      match parseRequestBody body with
      | BodyOk v => updateUser id v w
      | BodyErr m => (Send 400 (message m), w)
      | BodyUns => (RespUns, w)
      end
  end.

(** [s.split(sep)] for a one-character separator. *)
Fixpoint split_on (sep : ascii) (cs : list ascii) : list (list ascii) :=
  match cs with
  | [] => [[]]
  | c :: r =>
      if Ascii.eqb c sep then [] :: split_on sep r
      else
        match split_on sep r with
        | seg :: segs => (c :: seg) :: segs
        | [] => [[c]]
        end
  end.

(** White space [parseInt] skips.  [req.url] is a one-byte (Latin-1)
    string, so a byte is a character; among these, the ECMAScript white space
    and line terminators are TAB, LF, VT, FF, CR, SPACE and NBSP (0xA0). *)
Definition is_js_space (c : ascii) : bool :=
  let n := nat_of_ascii c in
  (Nat.eqb n 9 || Nat.eqb n 10 || Nat.eqb n 11 || Nat.eqb n 12 || Nat.eqb n 13
   || Nat.eqb n 32 || Nat.eqb n 160)%nat.

Fixpoint trim_start (cs : list ascii) : list ascii :=
  match cs with
  | c :: r => if is_js_space c then trim_start r else cs
  | [] => []
  end.

(** The longest run of hexadecimal digits at the front of [cs], its value
    accumulated onto [acc] and its length onto [n]. *)
Fixpoint hex_run (acc : Z) (n : nat) (cs : list ascii) : Z * nat :=
  match cs with
  | c :: r =>
      match hex_val c with
      | Some d => hex_run (acc * 16 + Z.of_nat d) (S n) r
      | None => (acc, n)
      end
  | [] => (acc, n)
  end.

(** [parseInt(s)] with no radix: leading white space, an optional sign, a
    [0x]/[0X] prefix selecting base 16, then the longest run of digits (NaN
    when there is none); the integer is rounded to the nearest double. *)
Definition parseInt (s : list ascii) : num :=
  let s1 := trim_start s in
  let '(neg, s2) :=
    match s1 with
    | c :: r =>
        if Ascii.eqb c "-"%char then (true, r)
        else if Ascii.eqb c "+"%char then (false, r)
        else (false, s1)
    | [] => (false, [])
    end in
  let signed (z : Z) := round_double (if neg then - z else z) in
  let decimal :=
    match digits s2 with
    | (Decimal.Nil, _) => NNaN
    | (u, _) => signed (Z.of_uint u)
    end in
  match s2 with
  | c0 :: cx :: r =>
      if Ascii.eqb c0 "0"%char && (Ascii.eqb cx "x"%char || Ascii.eqb cx "X"%char) then
        match hex_run 0 O r with
        | (_, O) => NNaN
        | (z, _) => signed z
        end
      else decimal
  | _ => decimal
  end.

(** [parseInt(urlParts[3])]: a missing element is [undefined], which
    [parseInt] reads as the text "undefined". *)
Definition url_id (url : string) : num :=
  match nth_error (split_on "/"%char (list_ascii_of_string url)) 3 with
  | Some seg => parseInt seg
  | None => parseInt (lit "undefined")
  end.

Definition starts_with_users (url : string) : bool :=
  match strip (lit "/api/users/") (list_ascii_of_string url) with
  | Some _ => true
  | None => false
  end.

(** [serverHandler(req, res)] for a request with this method, URL and body
    text. *)
Definition serverHandler (method url body : string) (w : world) : response * world :=
  if String.eqb method "GET" && String.eqb url "/api/users" then getAllUsers w
  else if String.eqb method "GET" && starts_with_users url then getUserById (url_id url) w
  else if String.eqb method "POST" && String.eqb url "/api/users" then createUser_req body w
  else if String.eqb method "PUT" && starts_with_users url then
    updateUser_req (url_id url) body w
  else if String.eqb method "DELETE" && starts_with_users url then deleteUser (url_id url) w
  else (Send 404 (message (String.append "Route not found for "
                             (String.append method (String.append " " url)))), w).

(** What may follow the digits of an id in a URL and leave them the number
    [parseInt] reads: nothing, or a character that neither continues the
    digits nor turns a leading 0 into a [0x] prefix. *)
Definition id_tail_ok (rest : list ascii) : Prop :=
  match rest with
  | [] => True
  | c :: _ => is_digit c = false /\ c <> "x"%char /\ c <> "X"%char
  end.

(** Whether a URL segment starts like a number for [parseInt]: a digit,
    white space or a sign. *)
Definition seg_starts_number (seg : list ascii) : bool :=
  match seg with
  | c :: _ => is_digit c || is_js_space c || Ascii.eqb c "+"%char || Ascii.eqb c "-"%char
  | [] => false
  end.

(* ================================================================== *)
(** * Lemmas *)

(** Induction on values, with the hypothesis on every element. *)
Section json_induction.
Variable P : json -> Prop.
Hypothesis HNull : P JNull.
Hypothesis HBool : forall b, P (JBool b).
Hypothesis HNum : forall n, P (JNum n).
Hypothesis HStr : forall s, P (JStr s).
Hypothesis HArr : forall l, Forall P l -> P (JArr l).
Hypothesis HObj : forall kvs, Forall (fun kv => P (snd kv)) kvs -> P (JObj kvs).

Fixpoint json_ind' (v : json) : P v :=
  match v with
  | JNull => HNull
  | JBool b => HBool b
  | JNum n => HNum n
  | JStr s => HStr s
  | JArr l =>
      HArr l ((fix go (l : list json) : Forall P l :=
                 match l with
                 | [] => Forall_nil _
                 | x :: l' => Forall_cons _ (json_ind' x) (go l')
                 end) l)
  | JObj kvs =>
      HObj kvs ((fix go (l : list (string * json)) : Forall (fun kv => P (snd kv)) l :=
                   match l with
                   | [] => Forall_nil _
                   | kv :: l' => Forall_cons _ (json_ind' (snd kv)) (go l')
                   end) kvs)
  end.
End json_induction.

Lemma digits_val_fold (l : list ascii) (acc : Z) :
  fold_left (fun acc c => acc * 10 + digit_value c) l acc
  = acc * 10 ^ Z.of_nat (length l) + digits_val l.
Proof.
  unfold digits_val. revert acc.
  induction l as [|c l IH]; intros acc; cbn [fold_left length].
  - cbn. lia.
  - rewrite (IH (acc * 10 + digit_value c)), (IH (0 * 10 + digit_value c)).
    rewrite Nat2Z.inj_succ, Z.pow_succ_r by lia. ring.
Qed.

Lemma digits_val_app (l1 l2 : list ascii) :
  digits_val (l1 ++ l2) = digits_val l1 * 10 ^ Z.of_nat (length l2) + digits_val l2.
Proof. unfold digits_val at 1. rewrite fold_left_app. apply digits_val_fold. Qed.

Lemma digits_val_cons (c : ascii) (l : list ascii) :
  digits_val (c :: l) = digit_value c * 10 ^ Z.of_nat (length l) + digits_val l.
Proof. apply (digits_val_app [c] l). Qed.

Lemma digits_val_zeros (n : nat) : digits_val (repeat "0"%char n) = 0.
Proof.
  induction n as [|n IH]; [reflexivity|].
  cbn [repeat]. rewrite digits_val_cons, IH. reflexivity.
Qed.

Lemma digits_val_acc (u : Decimal.uint) (acc : positive) :
  fold_left (fun acc c => acc * 10 + digit_value c) (uint_chars u) (Zpos acc)
  = Zpos (Pos.of_uint_acc u acc).
Proof.
  revert acc. induction u; intros acc; [reflexivity| ..];
    cbn [uint_chars fold_left Pos.of_uint_acc]; rewrite <- IHu; f_equal;
    match goal with |- context [digit_value ?c] =>
      let v := eval vm_compute in (digit_value c) in change (digit_value c) with v end;
    lia.
Qed.

Lemma digits_val_uint (u : Decimal.uint) : digits_val (uint_chars u) = Z.of_uint u.
Proof.
  induction u; [reflexivity| ..]; unfold digits_val; cbn [uint_chars fold_left];
    [ exact IHu | .. ];
    unfold Z.of_uint; cbn [Pos.of_uint Z.of_N];
    rewrite <- digits_val_acc; f_equal.
Qed.

Lemma digits_val_pos (p : positive) : digits_val (uint_chars (Pos.to_uint p)) = Zpos p.
Proof. rewrite digits_val_uint. unfold Z.of_uint. rewrite DecimalPos.Unsigned.of_to. reflexivity. Qed.

Lemma ltb_mul_r (x y c : Z) : 0 < c -> (x * c <? y * c) = (x <? y).
Proof. intros Hc. destruct (Z.ltb_spec x y), (Z.ltb_spec (x * c) (y * c)); nia. Qed.

Lemma eqb_mul_r (x y c : Z) : 0 < c -> (x * c =? y * c) = (x =? y).
Proof. intros Hc. destruct (Z.eqb_spec x y), (Z.eqb_spec (x * c) (y * c)); nia. Qed.

Lemma leb_mul_r (x y c : Z) : 0 < c -> (x * c <=? y * c) = (x <=? y).
Proof. intros Hc. destruct (Z.leb_spec x y), (Z.leb_spec (x * c) (y * c)); nia. Qed.

(** Rounding a quotient depends only on its value. *)
Lemma round_q_mag_scale (a b c : Z) :
  0 < b -> 0 < c -> round_q_mag (a * c) (b * c) = round_q_mag a b.
Proof.
  intros Hb Hc. unfold round_q_mag.
  replace (a * c <=? 0) with (a * c <=? 0 * c) by (f_equal; ring).
  rewrite leb_mul_r by exact Hc.
  destruct (Z.leb_spec a 0) as [Ha|Ha]; [reflexivity|].
  rewrite leb_mul_r by exact Hc.
  rewrite Z.div_mul_cancel_r by lia.
  replace (- (b * c)) with (- b * c) by ring.
  rewrite Z.div_mul_cancel_r by lia.
  set (t := if b <=? a then Z.log2 (a / b) else - Z.log2_up (- (- b / a))).
  set (sh := Z.max (t - 52) (-1074)).
  destruct (Z.ltb_spec sh 0) as [Hs|Hs].
  - assert (Hp : 0 < 2 ^ (- sh)) by (apply Z.pow_pos_nonneg; lia).
    replace (a * c * 2 ^ (- sh)) with (a * 2 ^ (- sh) * c) by ring.
    rewrite Z.div_mul_cancel_r, Z.mul_mod_distr_r by lia.
    replace (2 * (a * 2 ^ (- sh) mod b * c)) with (2 * (a * 2 ^ (- sh) mod b) * c) by ring.
    rewrite ltb_mul_r, eqb_mul_r by exact Hc. reflexivity.
  - assert (Hq : 0 < 2 ^ sh) by (apply Z.pow_pos_nonneg; lia).
    replace (b * c * 2 ^ sh) with (b * 2 ^ sh * c) by ring.
    rewrite Z.div_mul_cancel_r, Z.mul_mod_distr_r by lia.
    replace (2 * (a mod (b * 2 ^ sh) * c)) with (2 * (a mod (b * 2 ^ sh)) * c) by ring.
    rewrite ltb_mul_r, eqb_mul_r by exact Hc. reflexivity.
Qed.

Lemma num_eqb_eq (x y : num) : num_eqb x y = true -> x = y.
Proof.
  destruct x, y; simpl; intros H; try discriminate; try reflexivity.
  - apply Z.eqb_eq in H. subst. reflexivity.
  - apply andb_prop in H as [H1 H2]. apply Z.eqb_eq in H1. apply Pos.eqb_eq in H2.
    subst. reflexivity.
Qed.

Lemma dec_value_zero (e : Z) : dec_value false 0 e = NFin 0.
Proof. unfold dec_value. destruct (0 <=? e); reflexivity. Qed.

Lemma strip10_nonneg (f : nat) (s e : Z) : 0 <= s -> 0 <= fst (strip10 f s e).
Proof.
  revert s e. induction f as [|f IH]; intros s e Hs; simpl; [exact Hs|].
  destruct ((0 <? s) && (s mod 10 =? 0)); [apply IH; apply Z.div_pos; lia | exact Hs].
Qed.

Lemma shortest_from_spec (x : num) (m D n0 k : Z) (f : nat) :
  0 <= m ->
  let '(s, e) := shortest_from x m D n0 k f in
  (reads_as x s e = true /\ 0 <= s) \/ (s = m /\ e = n0 - D).
Proof.
  intros Hm. revert k. induction f as [|f IH]; intros k; cbn [shortest_from]; [right; auto|].
  set (lo := m / 10 ^ (D - k)).
  assert (Hlo : 0 <= lo) by (apply Z_div_nonneg_nonneg; [lia | apply Z.pow_nonneg; lia]).
  pose proof (strip10_nonneg (Z.to_nat k) lo (n0 - k) Hlo) as H1.
  pose proof (strip10_nonneg (S (Z.to_nat k)) (lo + 1) (n0 - k) ltac:(lia)) as H2.
  destruct (strip10 (Z.to_nat k) lo (n0 - k)) as [slo elo].
  destruct (strip10 (S (Z.to_nat k)) (lo + 1) (n0 - k)) as [shi ehi].
  simpl in H1, H2.
  destruct (reads_as x slo elo) eqn:El, (reads_as x shi ehi) eqn:Eh; simpl;
    try (left; auto; fail); [|apply IH].
  destruct (_ <? _); [left; auto|]. destruct (_ <? _); [left; auto|].
  destruct (Z.even lo); left; auto.
Qed.

Lemma round_double_nonneg (z : Z) :
  round_double z = NFin z -> round_double (Z.abs z) = NFin (Z.abs z).
Proof.
  unfold round_double. rewrite Z.abs_idemp. intros H.
  destruct (2 ^ 1024 <=? round_mag (Z.abs z)); [destruct (z <? 0); discriminate H|].
  injection H as H.
  replace (Z.abs z <? 0) with false by (symmetry; apply Z.ltb_ge; lia).
  destruct (Z.ltb_spec z 0); f_equal; lia.
Qed.

Lemma finite_frac_abs (m : Z) (e : positive) :
  finite_num (NFrac m e) = true -> round_q_mag (Z.abs m) (2 ^ Zpos e) = NFrac (Z.abs m) e.
Proof.
  unfold finite_num, round_q.
  destruct (Z.ltb_spec m 0) as [Hm|Hm].
  - destruct (round_q_mag (- m) (2 ^ Zpos e)) eqn:E; cbn [num_neg]; try discriminate.
    intros H. apply andb_prop in H as [H1 H2]. apply Z.eqb_eq in H1. apply Pos.eqb_eq in H2.
    subst. rewrite Z.abs_neq by lia. rewrite E. f_equal. lia.
  - destruct (round_q_mag m (2 ^ Zpos e)) eqn:E; try discriminate.
    intros H. apply andb_prop in H as [H1 H2]. apply Z.eqb_eq in H1. apply Pos.eqb_eq in H2.
    subst. rewrite Z.abs_eq by lia. exact E.
Qed.

(** The decimal [Number::toString] picks reads back as the number. *)
Lemma shortest_ok (x : num) :
  finite_num x = true -> x <> NFin 0 ->
  let '(s, e) := shortest (num_abs x) in 0 < s /\ dec_value false s e = num_abs x.
Proof.
  intros Hfin Hx0.
  assert (Hnz : num_abs x <> NFin 0).
  { destruct x as [z|m e| | |]; simpl; try discriminate.
    intros H. injection H as H. apply Hx0. f_equal. lia. }
  assert (Hfb : forall s e, 0 <= s -> dec_value false s e = num_abs x ->
                0 < s /\ dec_value false s e = num_abs x).
  { intros s e Hs Hd. split; [|exact Hd].
    destruct (Z.eq_dec s 0) as [->|]; [|lia].
    rewrite dec_value_zero in Hd. congruence. }
  destruct x as [z|m e| | |]; try discriminate Hfin; unfold shortest;
    cbn [num_abs] in Hfb, Hnz |- *; cbv beta iota.
  - set (D := Z.of_nat (length (pos_digits (Z.abs z)))).
    pose proof (shortest_from_spec (NFin (Z.abs z)) (Z.abs z) D (D - 0) 1 (Z.to_nat D)
                  ltac:(lia)) as Hs.
    destruct (shortest_from _ _ _ _ _ _) as [s e'].
    destruct Hs as [[Hr Hs] | [-> ->]].
    + apply Hfb; [exact Hs | apply num_eqb_eq; exact Hr].
    + apply Hfb; [lia|]. replace (D - 0 - D) with 0 by lia.
      unfold dec_value. simpl. rewrite Z.mul_1_r.
      apply round_double_nonneg. simpl in Hfin.
      destruct (round_double z) eqn:E; try discriminate.
      apply Z.eqb_eq in Hfin. subst. reflexivity.
  - set (D := Z.of_nat (length (pos_digits (Z.abs m * 5 ^ Zpos e)))).
    pose proof (shortest_from_spec (NFrac (Z.abs m) e) (Z.abs m * 5 ^ Zpos e) D
                  (D - Zpos e) 1 (Z.to_nat D) ltac:(pose proof (Z.abs_nonneg m);
                                                  pose proof (Z.pow_pos_nonneg 5 (Zpos e)); nia))
      as Hs.
    destruct (shortest_from _ _ _ _ _ _) as [s e'].
    destruct Hs as [[Hr Hs] | [-> ->]].
    + apply Hfb; [exact Hs | apply num_eqb_eq; exact Hr].
    + apply Hfb; [pose proof (Z.abs_nonneg m); pose proof (Z.pow_pos_nonneg 5 (Zpos e)); nia|].
      replace (D - Zpos e - D) with (- Zpos e) by lia.
      unfold dec_value. replace (0 <=? - Zpos e) with false by reflexivity.
      rewrite Z.opp_involutive. unfold round_q.
      replace (Z.abs m * 5 ^ Zpos e <? 0) with false
        by (symmetry; apply Z.ltb_ge; pose proof (Z.abs_nonneg m);
            pose proof (Z.pow_pos_nonneg 5 (Zpos e)); nia).
      replace (10 ^ Zpos e) with (2 ^ Zpos e * 5 ^ Zpos e)
        by (rewrite <- Z.pow_mul_l; reflexivity).
      rewrite round_q_mag_scale by (apply Z.pow_pos_nonneg; lia).
      apply finite_frac_abs. exact Hfin.
Qed.

Lemma to_uint_not_D0 (p : positive) (d : Decimal.uint) : Pos.to_uint p <> Decimal.D0 d.
Proof.
  intros H.
  assert (Hn : Pos.to_uint p = Decimal.unorm (Pos.to_uint p)).
  { rewrite <- DecimalPos.Unsigned.to_of, DecimalPos.Unsigned.of_to. reflexivity. }
  rewrite H in Hn. unfold Decimal.unorm in Hn. simpl in Hn.
  destruct (Decimal.nzhead d) eqn:Hz;
    [ inversion Hn; subst; exact (DecimalPos.Unsigned.to_uint_nonzero p H) | .. ];
    pose proof (DecimalFacts.nb_digits_nzhead d) as Hl; rewrite Hz, <- Hn in Hl;
    simpl in Hl; lia.
Qed.

Lemma uint_chars_head (p : positive) :
  exists c r, uint_chars (Pos.to_uint p) = c :: r /\ is_digit c = true
              /\ Ascii.eqb c "0"%char = false /\ Ascii.eqb c "-"%char = false
              /\ Ascii.eqb c "n"%char = false /\ Ascii.eqb c "t"%char = false
              /\ Ascii.eqb c "f"%char = false.
Proof.
  pose proof (DecimalPos.Unsigned.to_uint_nonnil p) as Hnil.
  pose proof (to_uint_not_D0 p) as H0.
  destruct (Pos.to_uint p) eqn:E; try congruence;
    try (exfalso; eapply H0; reflexivity);
    (eexists; eexists; split; [reflexivity | repeat split]).
Qed.

Lemma uint_chars_digits (u : Decimal.uint) : forallb is_digit (uint_chars u) = true.
Proof. induction u; simpl; try rewrite IHu; reflexivity. Qed.

Lemma Z_of_uint_to_uint (p : positive) : Z.of_uint (Pos.to_uint p) = Zpos p.
Proof. unfold Z.of_uint. rewrite DecimalPos.Unsigned.of_to. reflexivity. Qed.

Lemma pos_digits_val (s : Z) : 0 < s -> digits_val (pos_digits s) = s.
Proof.
  intros Hs. unfold pos_digits. rewrite digits_val_pos. apply Z2Pos.id. exact Hs.
Qed.

(** What may follow a value in the output of [stringify]. *)
Definition follows (rest : list ascii) : Prop :=
  match rest with
  | [] => True
  | c :: _ => c = ","%char \/ c = newline
  end.

(** A text that does not start with a digit. *)
Definition no_digit (cs : list ascii) : Prop :=
  match cs with
  | [] => True
  | c :: _ => is_digit c = false
  end.

Lemma follows_no_digit (rest : list ascii) : follows rest -> no_digit rest.
Proof. destruct rest as [|c r]; simpl; [auto|]. intros [-> | ->]; reflexivity. Qed.

Lemma span_digits_app (ds rest : list ascii) :
  forallb is_digit ds = true -> no_digit rest -> span_digits (ds ++ rest) = (ds, rest).
Proof.
  intros Hd Hr. induction ds as [|c ds IH].
  - destruct rest as [|c r]; [reflexivity|]. simpl in Hr |- *. rewrite Hr. reflexivity.
  - simpl in Hd |- *. apply andb_prop in Hd as [H1 H2]. rewrite H1, (IH H2). reflexivity.
Qed.

Lemma zeros_digits (n : nat) : forallb is_digit (repeat "0"%char n) = true.
Proof. induction n as [|n IH]; [reflexivity|]. exact IH. Qed.

Lemma pos_digits_digits (s : Z) : forallb is_digit (pos_digits s) = true.
Proof. apply uint_chars_digits. Qed.

Lemma pos_digits_head (s : Z) :
  exists c r, pos_digits s = c :: r /\ is_digit c = true
              /\ Ascii.eqb c "0"%char = false /\ Ascii.eqb c "-"%char = false
              /\ Ascii.eqb c "n"%char = false /\ Ascii.eqb c "t"%char = false
              /\ Ascii.eqb c "f"%char = false.
Proof. apply uint_chars_head. Qed.

Lemma number_tail_end (neg : bool) (int rest : list ascii) :
  follows rest ->
  number_tail neg int rest = POk (JNum (dec_value neg (digits_val int) 0)) rest.
Proof.
  intros Hf. unfold number_tail. destruct rest as [|c r].
  - rewrite app_nil_r. reflexivity.
  - destruct Hf as [-> | ->]; cbn -[digits_val dec_value]; rewrite app_nil_r; reflexivity.
Qed.

Lemma number_tail_frac (neg : bool) (int fr rest : list ascii) :
  fr <> [] -> forallb is_digit fr = true -> follows rest ->
  number_tail neg int ("."%char :: fr ++ rest)
  = POk (JNum (dec_value neg (digits_val (int ++ fr)) (- Z.of_nat (length fr)))) rest.
Proof.
  intros Hne Hd Hf. unfold number_tail. cbn [Ascii.eqb Bool.eqb].
  rewrite span_digits_app by (auto using follows_no_digit).
  destruct fr as [|a fr]; [congruence|].
  destruct rest as [|c r]; [reflexivity|].
  destruct Hf as [-> | ->]; reflexivity.
Qed.

Lemma exponent_chars_tail (x : Z) (rest : list ascii) :
  x <> 0 -> follows rest ->
  exists sg r4, exponent_chars x ++ rest = "e"%char :: sg :: r4
  /\ (if Ascii.eqb sg "-"%char then (true, r4)
      else if Ascii.eqb sg "+"%char then (false, r4) else (false, sg :: r4))
     = (x <? 0, pos_digits (Z.abs x) ++ rest)
  /\ span_digits (pos_digits (Z.abs x) ++ rest) = (pos_digits (Z.abs x), rest)
  /\ pos_digits (Z.abs x) <> []
  /\ (if x <? 0 then - digits_val (pos_digits (Z.abs x)) else digits_val (pos_digits (Z.abs x)))
     = x.
Proof.
  intros Hx Hf. unfold exponent_chars.
  destruct (pos_digits_head (Z.abs x)) as (c & r & Ec & _).
  eexists _, _. split; [reflexivity|]. split.
  { destruct (Z.ltb_spec x 0); reflexivity. }
  split; [apply span_digits_app; [apply pos_digits_digits | apply follows_no_digit, Hf]|].
  split; [rewrite Ec; discriminate|].
  rewrite pos_digits_val by lia. destruct (Z.ltb_spec x 0); lia.
Qed.

Lemma number_tail_exp (neg : bool) (int rest : list ascii) (x : Z) :
  x <> 0 -> follows rest ->
  number_tail neg int (exponent_chars x ++ rest)
  = POk (JNum (dec_value neg (digits_val int) x)) rest.
Proof.
  intros Hx Hf.
  destruct (exponent_chars_tail x rest Hx Hf) as (sg & r4 & E & Hsg & Hsp & Hne & Hv).
  rewrite E. unfold number_tail. cbn [Ascii.eqb Bool.eqb orb].
  rewrite Hsg. cbv beta iota zeta. rewrite Hsp, app_nil_r.
  rewrite <- Hv at 2. destruct (pos_digits (Z.abs x)) as [|a l]; [congruence|].
  cbn [length Z.of_nat]. rewrite Z.sub_0_r. reflexivity.
Qed.

Lemma number_tail_frac_exp (neg : bool) (int fr rest : list ascii) (x : Z) :
  fr <> [] -> forallb is_digit fr = true -> x <> 0 -> follows rest ->
  number_tail neg int ("."%char :: fr ++ exponent_chars x ++ rest)
  = POk (JNum (dec_value neg (digits_val (int ++ fr)) (x - Z.of_nat (length fr)))) rest.
Proof.
  intros Hne Hd Hx Hf.
  destruct (exponent_chars_tail x rest Hx Hf) as (sg & r4 & E & Hsg & Hsp & Hpne & Hv).
  rewrite E. unfold number_tail. cbn [Ascii.eqb Bool.eqb].
  rewrite span_digits_app by (simpl; auto).
  destruct fr as [|a fr]; [congruence|]. cbn [Ascii.eqb Bool.eqb orb].
  rewrite Hsg. cbv beta iota zeta. rewrite Hsp.
  rewrite <- Hv at 2. destruct (pos_digits (Z.abs x)) as [|b l]; [congruence|].
  reflexivity.
Qed.

Definition sign_chars (neg : bool) : list ascii := if neg then ["-"%char] else [].

Lemma parse_number_digits (neg : bool) (c : ascii) (ds t : list ascii) :
  is_digit c = true -> Ascii.eqb c "0"%char = false -> Ascii.eqb c "-"%char = false ->
  forallb is_digit ds = true -> no_digit t ->
  parse_number (sign_chars neg ++ c :: ds ++ t) = number_tail neg (c :: ds) t.
Proof.
  intros Hc H0 Hm Hd Ht.
  destruct neg; unfold parse_number; cbn [sign_chars app];
    [cbn [Ascii.eqb Bool.eqb] | rewrite Hm];
    rewrite H0, Hc, span_digits_app by assumption; reflexivity.
Qed.

Lemma parse_number_zero (neg : bool) (t : list ascii) :
  parse_number (sign_chars neg ++ "0"%char :: t) = number_tail neg ["0"%char] t.
Proof. destruct neg; reflexivity. Qed.

Section format_cases.
Variables (neg : bool) (c : ascii) (r : list ascii) (s e n : Z) (rest : list ascii).
Hypotheses (Hc : is_digit c = true) (H0 : Ascii.eqb c "0"%char = false)
  (Hm : Ascii.eqb c "-"%char = false) (Hr : forallb is_digit r = true)
  (Hs : digits_val (c :: r) = s) (Hf : follows rest)
  (Hn : n = e + Z.of_nat (length (c :: r))).

Lemma format_case_int :
  Z.of_nat (length (c :: r)) <= n ->
  parse_number (sign_chars neg
                ++ ((c :: r) ++ repeat "0"%char (Z.to_nat (n - Z.of_nat (length (c :: r)))))
                ++ rest)
  = POk (JNum (dec_value neg s e)) rest.
Proof.
  intros Hk. replace (n - Z.of_nat (length (c :: r))) with e by lia.
  rewrite <- (app_assoc (c :: r)), <- app_comm_cons, app_assoc.
  rewrite parse_number_digits, number_tail_end
    by (rewrite ?forallb_app, ?Hr, ?zeros_digits; auto using follows_no_digit).
  rewrite (app_comm_cons r _ c), digits_val_app, digits_val_zeros, repeat_length, Z2Nat.id by lia.
  rewrite Hs. unfold dec_value.
  replace (0 <=? e) with true by (symmetry; apply Z.leb_le; lia).
  rewrite Z.add_0_r, Z.mul_1_r. reflexivity.
Qed.

Lemma format_case_point :
  0 < n < Z.of_nat (length (c :: r)) ->
  parse_number (sign_chars neg
                ++ (firstn (Z.to_nat n) (c :: r) ++ "."%char :: skipn (Z.to_nat n) (c :: r))
                ++ rest)
  = POk (JNum (dec_value neg s e)) rest.
Proof.
  intros Hk. cbn [length] in Hk, Hn.
  destruct (Z.to_nat n) as [|j] eqn:Ej; [lia|].
  cbn [firstn skipn]. rewrite <- app_assoc, <- app_comm_cons. cbn [app].
  assert (Hsk : skipn j r <> []).
  { intros E. pose proof (length_skipn j r) as L. rewrite E in L. simpl in L. lia. }
  pose proof (firstn_skipn j r) as Efs.
  assert (Hd : forallb is_digit (firstn j r) = true /\ forallb is_digit (skipn j r) = true).
  { rewrite <- Efs, forallb_app in Hr. apply andb_prop in Hr. exact Hr. }
  destruct Hd as [Hd1 Hd2].
  rewrite parse_number_digits by (simpl; auto).
  rewrite number_tail_frac by auto.
  rewrite <- app_comm_cons, Efs, Hs, length_skipn. f_equal. f_equal. f_equal. lia.
Qed.

Lemma format_case_small :
  -6 < n <= 0 ->
  parse_number (sign_chars neg
                ++ ("0"%char :: "."%char :: repeat "0"%char (Z.to_nat (- n)) ++ c :: r)
                ++ rest)
  = POk (JNum (dec_value neg s e)) rest.
Proof.
  intros Hk. rewrite <- !app_comm_cons, parse_number_zero.
  rewrite number_tail_frac
    by (try (destruct (Z.to_nat (- n)); discriminate);
        rewrite ?forallb_app, ?zeros_digits; cbn [forallb andb]; rewrite ?Hc, ?Hr; auto).
  rewrite app_assoc.
  change (["0"%char] ++ repeat "0"%char (Z.to_nat (- n)))
    with (repeat "0"%char (S (Z.to_nat (- n)))).
  rewrite digits_val_app, digits_val_zeros, Hs, length_app, repeat_length.
  cbn [length] in Hn |- *. f_equal. f_equal. f_equal. lia.
Qed.

Lemma format_case_exp1 :
  r = [] -> n <> 1 ->
  parse_number (sign_chars neg ++ (c :: exponent_chars (n - 1)) ++ rest)
  = POk (JNum (dec_value neg s e)) rest.
Proof.
  intros -> Hk. rewrite <- app_comm_cons.
  change (c :: exponent_chars (n - 1) ++ rest) with (c :: [] ++ exponent_chars (n - 1) ++ rest).
  rewrite parse_number_digits by (simpl; auto).
  rewrite number_tail_exp by (auto; lia).
  rewrite Hs. cbn [length] in Hn. f_equal. f_equal. f_equal. lia.
Qed.

Lemma format_case_exp (d : ascii) (r' : list ascii) :
  r = d :: r' -> n <> 1 ->
  parse_number (sign_chars neg ++ (c :: "."%char :: (d :: r') ++ exponent_chars (n - 1)) ++ rest)
  = POk (JNum (dec_value neg s e)) rest.
Proof.
  intros Er Hk. rewrite <- app_comm_cons, <- Er.
  change (c :: ("."%char :: r ++ exponent_chars (n - 1)) ++ rest)
    with (c :: [] ++ "."%char :: (r ++ exponent_chars (n - 1)) ++ rest).
  rewrite <- app_assoc.
  rewrite parse_number_digits by (simpl; auto).
  rewrite number_tail_frac_exp by (subst r; auto; try discriminate; lia).
  change ([c] ++ r) with (c :: r). rewrite Hs. cbn [length] in Hn. f_equal. f_equal. f_equal. lia.
Qed.

End format_cases.

Lemma parse_format (neg : bool) (s e : Z) (rest : list ascii) :
  0 < s -> follows rest ->
  parse_number (sign_chars neg
                ++ format_digits (pos_digits s) (e + Z.of_nat (length (pos_digits s)))
                ++ rest)
  = POk (JNum (dec_value neg s e)) rest.
Proof.
  intros Hs Hf.
  destruct (pos_digits_head s) as (c & r & Eds & Hc & H0 & Hm & _).
  pose proof (pos_digits_val s Hs) as Hval. pose proof (pos_digits_digits s) as Hdig.
  rewrite Eds in Hval, Hdig |- *. simpl in Hdig. rewrite Hc in Hdig. simpl in Hdig.
  unfold format_digits.
  remember (e + Z.of_nat (length (c :: r))) as n eqn:Hn.
  destruct (Z.leb_spec (Z.of_nat (length (c :: r))) n);
    destruct (Z.leb_spec n 21); cbn [andb];
    [ apply format_case_int; auto | .. ];
    destruct (Z.ltb_spec 0 n); cbn [andb];
    try (apply format_case_point; auto; lia);
    destruct (Z.ltb_spec (-6) n); destruct (Z.leb_spec n 0); cbn [andb];
    try (apply format_case_small; auto; lia);
    (destruct r as [|d r'];
     [ apply format_case_exp1 with (r := []); auto; cbn [length] in *; lia
     | apply format_case_exp with (r := d :: r'); auto; cbn [length] in *; lia ]).
Qed.

Lemma dec_value_sign (neg : bool) (m e : Z) :
  dec_value neg m e = if neg then num_neg (dec_value false m e) else dec_value false m e.
Proof. destruct neg; reflexivity. Qed.

Lemma num_sign_abs (x : num) :
  (if num_is_neg x then num_neg (num_abs x) else num_abs x) = x.
Proof.
  destruct x as [z|m e| | |]; try reflexivity; cbn [num_is_neg num_abs num_neg];
    [destruct (Z.ltb_spec z 0) | destruct (Z.ltb_spec m 0)]; f_equal; lia.
Qed.

Lemma number_chars_shortest (x : num) :
  x <> NFin 0 -> (exists z, x = NFin z) \/ (exists m e, x = NFrac m e) ->
  number_chars x =
  let '(s, e) := shortest (num_abs x) in
  sign_chars (num_is_neg x) ++ format_digits (pos_digits s) (e + Z.of_nat (length (pos_digits s))).
Proof.
  intros H0 [[z ->] | (m & e & ->)]; [destruct z; [congruence | |] |];
    unfold number_chars; destruct (shortest _); reflexivity.
Qed.

(** A finite number printed by [Number::toString], followed by an admissible
    [rest], is read back. *)
Lemma parse_number_chars (x : num) (rest : list ascii) :
  finite_num x = true -> follows rest ->
  parse_number (number_chars x ++ rest) = POk (JNum x) rest.
Proof.
  intros Hfin Hf.
  destruct (num_eqb x (NFin 0)) eqn:E0.
  - apply num_eqb_eq in E0. subst x. cbn [number_chars app].
    change ("0"%char :: rest) with (sign_chars false ++ "0"%char :: rest).
    rewrite parse_number_zero, number_tail_end by exact Hf. reflexivity.
  - assert (Hx : x <> NFin 0) by (intros ->; discriminate E0).
    assert (Hc : (exists z, x = NFin z) \/ (exists m e, x = NFrac m e))
      by (destruct x; try discriminate Hfin; eauto).
    rewrite (number_chars_shortest x Hx Hc).
    pose proof (shortest_ok x Hfin Hx) as Hok.
    destruct (shortest (num_abs x)) as [s e]. destruct Hok as [Hs Hd].
    rewrite <- app_assoc, parse_format by assumption.
    rewrite dec_value_sign, Hd, num_sign_abs. reflexivity.
Qed.

Lemma format_digits_head (c : ascii) (r : list ascii) (n : Z) :
  exists c' r', format_digits (c :: r) n = c' :: r' /\ (c' = c \/ c' = "0"%char).
Proof.
  unfold format_digits.
  destruct ((Z.of_nat (length (c :: r)) <=? n) && (n <=? 21)).
  { eexists _, _. split; [reflexivity | auto]. }
  destruct ((0 <? n) && (n <=? 21)) eqn:C.
  { apply andb_prop in C as [C _]. apply Z.ltb_lt in C.
    destruct (Z.to_nat n) eqn:Ej; [lia|]. eexists _, _. split; [reflexivity | auto]. }
  destruct ((-6 <? n) && (n <=? 0)).
  { eexists _, _. split; [reflexivity | auto]. }
  destruct r; eexists _, _; split; [reflexivity | auto | reflexivity | auto].
Qed.

(** The first character [Number::toString] writes, or the [n] of [null]. *)
Lemma number_chars_head (x : num) :
  exists c r, number_chars x = c :: r
  /\ (c = "-"%char \/ c = "0"%char \/ c = "n"%char \/ is_digit c = true)
  /\ (c = "n"%char -> finite_num x = false).
Proof.
  destruct (num_eqb x (NFin 0)) eqn:E0.
  { apply num_eqb_eq in E0. subst x. eexists _, _. split; [reflexivity|].
    split; [auto | discriminate]. }
  assert (Hx : x <> NFin 0) by (intros ->; discriminate E0).
  destruct x as [z|m e| | |];
    try (eexists _, _; split; [reflexivity | split; [auto | reflexivity]]; fail);
    (rewrite number_chars_shortest by eauto;
     destruct (shortest _) as [s e'];
     destruct (pos_digits_head s) as (c & r & Eds & Hc & _);
     rewrite Eds;
     destruct (format_digits_head c r (e' + Z.of_nat (length (c :: r)))) as (c' & r' & Ef & Hc');
     rewrite Ef; destruct (num_is_neg _);
     cbn [sign_chars app];
     (eexists _, _; split; [reflexivity|]);
     (split; [destruct Hc' as [-> | ->]; auto | intros Hn]);
     [discriminate Hn | destruct Hc' as [-> | ->]; [subst c; discriminate Hc | discriminate Hn]]).
Qed.

(** Reading back one escaped character. *)
Lemma parse_chars_escape (ex : bool) (c : ascii) (r : list ascii) :
  parse_chars ex (escape_char c ++ r) = pcons c (parse_chars ex r).
Proof. destruct c as [[] [] [] [] [] [] [] []]; reflexivity. Qed.

Lemma parse_chars_quoted (ex : bool) (cs rest : list ascii) :
  parse_chars ex (flat_map escape_char cs ++ dquote :: rest) = POk cs rest.
Proof.
  induction cs as [|c cs IH]; [reflexivity|].
  simpl. rewrite <- app_assoc, parse_chars_escape, IH. reflexivity.
Qed.

Lemma skip_ws_idem (cs : list ascii) : skip_ws (skip_ws cs) = skip_ws cs.
Proof.
  induction cs as [|c cs IH]; [reflexivity|].
  simpl. destruct (is_ws c) eqn:E; [exact IH|]. simpl. rewrite E. reflexivity.
Qed.

Lemma skip_ws_indent (n : nat) (cs : list ascii) : skip_ws (indent n ++ cs) = skip_ws cs.
Proof.
  unfold indent. induction (2 * n)%nat as [|m IH]; [reflexivity|]. exact IH.
Qed.

Lemma skip_ws_nonws (c : ascii) (cs : list ascii) :
  is_ws c = false -> skip_ws (c :: cs) = c :: cs.
Proof. intros H. simpl. rewrite H. reflexivity. Qed.

Lemma parse_value_skip (ex : bool) (f : nat) (cs : list ascii) :
  parse_value ex f cs = parse_value ex f (skip_ws cs).
Proof. destruct f; [reflexivity|]. simpl. rewrite skip_ws_idem. reflexivity. Qed.

Lemma is_digit_facts (c : ascii) :
  is_digit c = true ->
  is_ws c = false /\ Ascii.eqb c "n"%char = false /\ Ascii.eqb c "t"%char = false
  /\ Ascii.eqb c "f"%char = false /\ Ascii.eqb c dquote = false
  /\ Ascii.eqb c "["%char = false /\ Ascii.eqb c "{"%char = false
  /\ Ascii.eqb c "]"%char = false /\ Ascii.eqb c "}"%char = false.
Proof.
  destruct c as [[] [] [] [] [] [] [] []]; intros H;
    (discriminate H || (repeat split; reflexivity)).
Qed.

(** A text that does not start with white space or a literal's first letter
    is read as a string, an array, an object or a number. *)
Lemma parse_value_dispatch (ex : bool) (f : nat) (c : ascii) (r : list ascii) :
  is_ws c = false -> Ascii.eqb c "n"%char = false -> Ascii.eqb c "t"%char = false ->
  Ascii.eqb c "f"%char = false ->
  parse_value ex (S f) (c :: r) =
    if Ascii.eqb c dquote then
      pmap (fun s => JStr (string_of_list_ascii s)) (parse_chars ex r)
    else if Ascii.eqb c "["%char then
      match skip_ws r with
      | c' :: r' => if Ascii.eqb c' "]"%char then POk (JArr []) r'
                    else parse_elems ex f r []
      | [] => PErr
      end
    else if Ascii.eqb c "{"%char then
      match skip_ws r with
      | c' :: r' => if Ascii.eqb c' "}"%char then POk (JObj []) r'
                    else parse_members ex f r []
      | [] => PErr
      end
    else parse_number (c :: r).
Proof.
  intros Hw Hn Ht Hf. cbn [parse_value]. rewrite skip_ws_nonws by exact Hw.
  cbn [lit list_ascii_of_string strip]. rewrite Ascii.eqb_sym, Hn.
  rewrite (Ascii.eqb_sym "t"%char c), Ht. rewrite (Ascii.eqb_sym "f"%char c), Hf.
  reflexivity.
Qed.

Lemma existsb_nodup_app (k : string) (l1 l2 : list string) :
  nodup_keys (l1 ++ k :: l2) = true -> existsb (String.eqb k) l1 = false.
Proof.
  induction l1 as [|a l1 IH]; [reflexivity|].
  simpl. intros H. apply andb_prop in H as [H1 H2].
  rewrite (IH H2). rewrite orb_false_r.
  destruct (String.eqb k a) eqn:E; [|reflexivity].
  apply String.eqb_eq in E. subst a.
  rewrite existsb_app in H1. simpl in H1. rewrite String.eqb_refl in H1.
  rewrite orb_true_r in H1. discriminate.
Qed.

Lemma set_new (o : obj) (k : string) (v : json) :
  existsb (String.eqb k) (map fst o) = false -> set o k v = o ++ [(k, v)].
Proof.
  induction o as [|[k' v'] o IH]; [reflexivity|].
  simpl. intros H. apply orb_false_elim in H as [H1 H2].
  rewrite H1, (IH H2). reflexivity.
Qed.

Lemma skip_ws_newline (cs : list ascii) : skip_ws (newline :: cs) = skip_ws cs.
Proof. reflexivity. Qed.

Lemma skip_ws_space (cs : list ascii) : skip_ws (space :: cs) = skip_ws cs.
Proof. reflexivity. Qed.

(** The value printed at depth [d], followed by an admissible [rest], is
    read back. *)
Definition reads_back (v : json) : Prop :=
  wf_json v = true ->
  forall ex d f rest, (jsize v <= f)%nat -> follows rest ->
  parse_value ex f (stringify d v ++ rest) = POk v rest.

Lemma parse_elems_printed (ex : bool) (d : nat) (xs : list json) :
  forall x acc f rest,
  Forall reads_back (x :: xs) -> forallb wf_json (x :: xs) = true ->
  (list_sum (map (fun y => S (jsize y)) (x :: xs)) <= f)%nat ->
  parse_elems ex f
    (newline :: indent (S d) ++ stringify (S d) x
     ++ flat_map (fun y => ","%char :: newline :: indent (S d) ++ stringify (S d) y) xs
     ++ newline :: indent d ++ "]"%char :: rest) acc
  = POk (JArr (acc ++ x :: xs)) rest.
Proof.
  induction xs as [|y ys IH]; intros x acc f rest Hrb Hwf Hf;
    inversion Hrb as [|? ? Hx Hrest]; subst;
    simpl in Hwf; apply andb_prop in Hwf as [Hwx Hwf];
    (destruct f as [|f]; [simpl in Hf; lia|]);
    cbn [parse_elems];
    rewrite parse_value_skip, skip_ws_newline, skip_ws_indent, <- parse_value_skip.
  - cbn [flat_map app].
    rewrite Hx by (simpl in Hf |- *; auto; lia).
    rewrite skip_ws_newline, skip_ws_indent, skip_ws_nonws by reflexivity.
    reflexivity.
  - cbn [flat_map]. rewrite <- !app_assoc. cbn [app].
    rewrite Hx by (simpl in Hf |- *; auto; lia).
    rewrite skip_ws_nonws by reflexivity. cbn [Ascii.eqb Bool.eqb].
    rewrite <- !app_assoc.
    rewrite (IH y (acc ++ [x]) f rest Hrest) by (simpl in Hf |- *; auto; lia).
    rewrite <- app_assoc. reflexivity.
Qed.

Lemma quote_app (k : string) (cs : list ascii) :
  quote k ++ cs = dquote :: flat_map escape_char (list_ascii_of_string k) ++ dquote :: cs.
Proof. unfold quote. rewrite <- app_comm_cons, <- app_assoc. reflexivity. Qed.

Lemma lit_colon (cs : list ascii) : lit ": " ++ cs = ":"%char :: space :: cs.
Proof. reflexivity. Qed.

Lemma parse_members_printed (ex : bool) (d : nat) (kvs : list (string * json)) :
  forall k x acc f rest,
  Forall (fun kv => reads_back (snd kv)) ((k, x) :: kvs) ->
  forallb (fun kv => wf_json (snd kv)) ((k, x) :: kvs) = true ->
  nodup_keys (map fst (acc ++ (k, x) :: kvs)) = true ->
  (list_sum (map (fun kv => S (jsize (snd kv))) ((k, x) :: kvs)) <= f)%nat ->
  parse_members ex f
    (newline :: indent (S d) ++ quote k ++ lit ": " ++ stringify (S d) x
     ++ flat_map (fun kv => ","%char :: newline :: indent (S d) ++ quote (fst kv)
                            ++ lit ": " ++ stringify (S d) (snd kv)) kvs
     ++ newline :: indent d ++ "}"%char :: rest) acc
  = POk (JObj (acc ++ (k, x) :: kvs)) rest.
Proof.
  induction kvs as [|[k' y] kvs IH]; intros k x acc f rest Hrb Hwf Hnd Hf;
    inversion Hrb as [|? ? Hx Hrest]; subst;
    simpl in Hwf; apply andb_prop in Hwf as [Hwx Hwf];
    (destruct f as [|f]; [simpl in Hf; lia|]);
    cbn [parse_members]; rewrite skip_ws_newline, skip_ws_indent, quote_app;
    rewrite skip_ws_nonws by reflexivity; rewrite Ascii.eqb_refl;
    rewrite parse_chars_quoted, lit_colon;
    rewrite skip_ws_nonws by reflexivity; cbn [Ascii.eqb Bool.eqb];
    rewrite parse_value_skip, skip_ws_space, <- parse_value_skip;
    rewrite String.string_of_list_ascii_of_string.
  - cbn [flat_map app].
    rewrite Hx by (simpl in Hf |- *; auto; lia). cbn [fst snd].
    rewrite (set_new acc k x)
      by (apply (existsb_nodup_app k (map fst acc) []);
          rewrite map_app in Hnd; exact Hnd).
    rewrite skip_ws_newline, skip_ws_indent, skip_ws_nonws by reflexivity.
    reflexivity.
  - cbn [flat_map fst snd]. rewrite <- !app_assoc. cbn [app].
    rewrite Hx by (simpl in Hf |- *; auto; lia). cbn [fst snd].
    rewrite (set_new acc k x)
      by (apply (existsb_nodup_app k (map fst acc) (map fst ((k', y) :: kvs)));
          rewrite map_app in Hnd; exact Hnd).
    rewrite skip_ws_nonws by reflexivity. cbn [Ascii.eqb Bool.eqb].
    rewrite <- !app_assoc.
    rewrite (IH k' y (acc ++ [(k, x)]) f rest Hrest)
      by (simpl in Hf |- *; rewrite <- ?app_assoc; auto; lia).
    rewrite <- app_assoc. reflexivity.
Qed.

Lemma stringify_head (d : nat) (v : json) :
  exists c r, stringify d v = c :: r /\ is_ws c = false
              /\ Ascii.eqb c "]"%char = false /\ Ascii.eqb c "}"%char = false.
Proof.
  destruct v as [| [] | n | s | [|x xs] | [|[k x] kvs]];
    try (do 2 eexists; split; [reflexivity | repeat split]; fail).
  destruct (number_chars_head n) as (c & r & E & Hc & _).
  exists c, r. cbn [stringify]. rewrite E. split; [reflexivity|].
  destruct Hc as [-> | [-> | [-> | Hd]]]; [repeat split .. |].
  destruct (is_digit_facts c Hd) as (Hw & _ & _ & _ & _ & _ & _ & Hb & Hc).
  auto.
Qed.

Lemma stringify_arr_cons (d : nat) (x : json) (xs : list json) :
  stringify d (JArr (x :: xs)) =
  "["%char :: newline :: indent (S d) ++ stringify (S d) x
  ++ flat_map (fun y => ","%char :: newline :: indent (S d) ++ stringify (S d) y) xs
  ++ newline :: indent d ++ ["]"%char].
Proof. reflexivity. Qed.

Lemma stringify_obj_cons (d : nat) (k : string) (x : json) (kvs : list (string * json)) :
  stringify d (JObj ((k, x) :: kvs)) =
  "{"%char :: newline :: indent (S d) ++ quote k ++ lit ": " ++ stringify (S d) x
  ++ flat_map (fun kv => ","%char :: newline :: indent (S d) ++ quote (fst kv)
                         ++ lit ": " ++ stringify (S d) (snd kv)) kvs
  ++ newline :: indent d ++ ["}"%char].
Proof. reflexivity. Qed.

(** Every well-formed value reads back from its printed form. *)
Lemma stringify_reads_back (v : json) : reads_back v.
Proof.
  induction v as [| b | n | s | l IH | kvs IH] using json_ind';
    intros Hwf ex d f rest Hs Hf; (destruct f as [|f]; [simpl in Hs; lia|]).
  - reflexivity.
  - destruct b; reflexivity.
  - cbn [wf_json] in Hwf.
    destruct (number_chars_head n) as (c & r & E & Hc & Hnn).
    assert (Hfacts : is_ws c = false /\ Ascii.eqb c "n"%char = false
                     /\ Ascii.eqb c "t"%char = false /\ Ascii.eqb c "f"%char = false
                     /\ Ascii.eqb c dquote = false /\ Ascii.eqb c "["%char = false
                     /\ Ascii.eqb c "{"%char = false).
    { destruct Hc as [-> | [-> | [-> | Hd]]];
        [repeat split .. | rewrite (Hnn eq_refl) in Hwf; discriminate Hwf |].
      destruct (is_digit_facts c Hd) as (Hw & Hn & Ht & Hff & Hq & Hl & Hr & _).
      auto 10. }
    destruct Hfacts as (Hw & Hn & Ht & Hff & Hq & Hl & Hr).
    cbn [stringify]. rewrite E. rewrite <- app_comm_cons.
    rewrite parse_value_dispatch by assumption. rewrite Hq, Hl, Hr.
    rewrite (app_comm_cons r rest c), <- E.
    apply parse_number_chars; assumption.
  - cbn [stringify]. rewrite quote_app.
    rewrite parse_value_dispatch by reflexivity. rewrite Ascii.eqb_refl.
    rewrite parse_chars_quoted. cbn [pmap].
    rewrite String.string_of_list_ascii_of_string. reflexivity.
  - destruct l as [|x xs]; [reflexivity|].
    rewrite stringify_arr_cons, <- app_comm_cons.
    rewrite parse_value_dispatch by reflexivity.
    replace (Ascii.eqb "["%char dquote) with false by reflexivity.
    cbn [Ascii.eqb Bool.eqb].
    rewrite <- app_comm_cons, skip_ws_newline, <- !app_assoc, skip_ws_indent.
    destruct (stringify_head (S d) x) as (c & r & E & Hw & Hb & _).
    rewrite E, <- app_comm_cons, skip_ws_nonws, Hb by exact Hw.
    rewrite (app_comm_cons r _ c), <- E.
    replace ((newline :: indent d ++ ["]"%char]) ++ rest)
      with (newline :: indent d ++ "]"%char :: rest)
      by (rewrite <- app_comm_cons, <- app_assoc; reflexivity).
    refine (eq_trans (parse_elems_printed ex d xs x [] f rest IH Hwf _) _);
      [simpl in Hs |- *; lia | reflexivity].
  - destruct kvs as [|[k x] kvs]; [reflexivity|].
    rewrite stringify_obj_cons, <- app_comm_cons.
    rewrite parse_value_dispatch by reflexivity.
    replace (Ascii.eqb "{"%char dquote) with false by reflexivity.
    cbn [Ascii.eqb Bool.eqb].
    rewrite <- app_comm_cons, skip_ws_newline, <- !app_assoc, skip_ws_indent, quote_app.
    rewrite skip_ws_nonws by reflexivity.
    replace (Ascii.eqb dquote "}"%char) with false by reflexivity.
    rewrite <- quote_app. cbn [app].
    simpl in Hwf. apply andb_prop in Hwf as [Hnd Hwf].
    rewrite <- (app_assoc (indent d)).
    refine (eq_trans (parse_members_printed ex d kvs k x [] f rest IH Hwf Hnd _) _);
      [simpl in Hs |- *; lia | reflexivity].
Qed.

Lemma length_flat_map_elems (d : nat) (xs : list json) :
  Forall (fun v => forall d, (jsize v <= length (stringify d v))%nat) xs ->
  (list_sum (map (fun y => S (jsize y)) xs)
   <= length (flat_map (fun y => ","%char :: newline :: indent (S d) ++ stringify (S d) y) xs))%nat.
Proof.
  induction 1 as [|y ys Hy _ IH]; [reflexivity|].
  unfold list_sum in *. cbn [flat_map map fold_right]. rewrite !length_app. cbn [length].
  rewrite length_app. specialize (Hy (S d)). lia.
Qed.

Lemma length_flat_map_members (d : nat) (kvs : list (string * json)) :
  Forall (fun kv => forall d, (jsize (snd kv) <= length (stringify d (snd kv)))%nat) kvs ->
  (list_sum (map (fun kv => S (jsize (snd kv))) kvs)
   <= length (flat_map (fun kv => ","%char :: newline :: indent (S d) ++ quote (fst kv)
                                  ++ lit ": " ++ stringify (S d) (snd kv)) kvs))%nat.
Proof.
  induction 1 as [|kv kvs Hy _ IH]; [reflexivity|].
  unfold list_sum in *. cbn [flat_map map fold_right]. rewrite !length_app. cbn [length].
  rewrite !length_app. specialize (Hy (S d)). lia.
Qed.

Lemma jsize_stringify (v : json) : forall d, (jsize v <= length (stringify d v))%nat.
Proof.
  induction v as [| b | n | s | l IH | kvs IH] using json_ind'; intros d.
  - simpl. lia.
  - destruct b; simpl; lia.
  - destruct (number_chars_head n) as (c & r & E & _).
    cbn [stringify jsize]. rewrite E. cbn [length]. lia.
  - unfold quote. simpl. lia.
  - destruct l as [|x xs]; [simpl; lia|].
    rewrite stringify_arr_cons. inversion IH as [|? ? Hx Hxs]; subst.
    pose proof (length_flat_map_elems d xs Hxs). specialize (Hx (S d)).
    cbn [jsize map length]. unfold list_sum in *. cbn [map fold_right]. rewrite !length_app. cbn [length]. lia.
  - destruct kvs as [|[k x] kvs]; [simpl; lia|].
    rewrite stringify_obj_cons. inversion IH as [|? ? Hx Hxs]; subst.
    pose proof (length_flat_map_members d kvs Hxs). specialize (Hx (S d)).
    cbn [jsize map length snd] in *. unfold list_sum in *. cbn [map fold_right snd] in *. rewrite !length_app. cbn [length]. lia.
Qed.

(** [JSON.parse(JSON.stringify(v, null, 2))] gives back every well-formed [v]. *)
Lemma json_parse_stringify (v : json) :
  wf_json v = true -> json_parse (json_stringify v) = POk v [].
Proof.
  intros Hwf. unfold json_parse, json_stringify.
  rewrite String.list_ascii_of_string_of_list_ascii.
  pose proof (jsize_stringify v 0%nat) as Hs.
  rewrite <- (app_nil_r (stringify 0 v)).
  rewrite (stringify_reads_back v Hwf false 0%nat _ []) by (rewrite ?app_nil_r; simpl; auto; lia).
  rewrite (stringify_reads_back v Hwf true 0%nat _ []) by (rewrite ?app_nil_r; simpl; auto; lia).
  reflexivity.
Qed.

(** A parse step that is not [PUns] and, when it succeeds, leaves less than
    the text [cs] it started on. *)
Definition progress {A} (p : pres A) (cs : list ascii) : Prop :=
  p <> PUns /\ forall a r, p = POk a r -> (length r < length cs)%nat.

Lemma progress_err {A} (cs : list ascii) : progress (@PErr A) cs.
Proof. split; [discriminate | intros a r H; discriminate H]. Qed.

Lemma progress_ok {A} (a : A) (r cs : list ascii) :
  (length r < length cs)%nat -> progress (POk a r) cs.
Proof. intros H. split; [discriminate | intros a' r' E; injection E as <- <-; exact H]. Qed.

Lemma progress_weaken {A} (p : pres A) (cs cs' : list ascii) :
  progress p cs -> (length cs <= length cs')%nat -> progress p cs'.
Proof. intros [H1 H2] Hl. split; [exact H1 | intros a r E; specialize (H2 a r E); lia]. Qed.

Lemma progress_pcons {A} (x : A) (p : pres (list A)) (cs : list ascii) :
  progress p cs -> progress (pcons x p) cs.
Proof.
  intros [H1 H2]. destruct p as [| |l r]; [apply progress_err | congruence |].
  apply progress_ok. exact (H2 l r eq_refl).
Qed.

Lemma progress_pprefix (l : list ascii) (p : pres (list ascii)) (cs : list ascii) :
  progress p cs -> progress (pprefix l p) cs.
Proof. intros H. induction l as [|x l IH]; [exact H | apply progress_pcons, IH]. Qed.

Lemma progress_pmap {A B} (f : A -> B) (p : pres A) (cs : list ascii) :
  progress p cs -> progress (pmap f p) cs.
Proof.
  intros [H1 H2]. destruct p as [| |a r]; [apply progress_err | congruence |].
  apply progress_ok. exact (H2 a r eq_refl).
Qed.

Lemma skip_ws_length (cs : list ascii) : (length (skip_ws cs) <= length cs)%nat.
Proof.
  induction cs as [|c cs IH]; [reflexivity|]. simpl. destruct (is_ws c); simpl; lia.
Qed.

Lemma strip_length (p cs r : list ascii) :
  strip p cs = Some r -> (length r + length p = length cs)%nat.
Proof.
  revert cs. induction p as [|a p IH]; intros cs H.
  - injection H as <-. simpl. lia.
  - destruct cs as [|c cs]; [discriminate H|]. simpl in H.
    destruct (Ascii.eqb a c); [|discriminate H]. specialize (IH cs H). simpl. lia.
Qed.

Lemma span_digits_length (cs ds r : list ascii) :
  span_digits cs = (ds, r) -> (length ds + length r = length cs)%nat.
Proof.
  revert ds r. induction cs as [|c cs IH]; intros ds r H.
  - injection H as <- <-. reflexivity.
  - simpl in H. destruct (is_digit c).
    + destruct (span_digits cs) as [ds' r'] eqn:E. injection H as <- <-.
      specialize (IH ds' r' eq_refl). simpl. lia.
    + injection H as <- <-. reflexivity.
Qed.

Lemma number_tail_progress (neg : bool) (int r cs : list ascii) :
  (length r < length cs)%nat -> progress (number_tail neg int r) cs.
Proof.
  intros Hl. unfold number_tail.
  destruct r as [|c r1].
  - apply progress_ok. exact Hl.
  - destruct (Ascii.eqb c "."%char).
    + destruct (span_digits r1) as [fs r2] eqn:Es.
      pose proof (span_digits_length _ _ _ Es) as L1.
      destruct fs as [|f fs]; [apply progress_err|].
      destruct r2 as [|c2 r3]; [apply progress_ok; simpl in *; lia|].
      destruct (Ascii.eqb c2 "e"%char || Ascii.eqb c2 "E"%char);
        [|apply progress_ok; simpl in *; lia].
      destruct (match r3 with
                | c' :: r4 => if Ascii.eqb c' "-"%char then (true, r4)
                              else if Ascii.eqb c' "+"%char then (false, r4) else (false, r3)
                | [] => (false, [])
                end) as [eneg r4] eqn:Er.
      assert (L2 : (length r4 <= length r3)%nat).
      { destruct r3 as [|c' r3']; [injection Er as _ <-; simpl; lia|].
        destruct (Ascii.eqb c' "-"%char); [injection Er as _ <-; simpl; lia|].
        destruct (Ascii.eqb c' "+"%char); injection Er as _ <-; simpl; lia. }
      destruct (span_digits r4) as [es r5] eqn:Es'.
      pose proof (span_digits_length _ _ _ Es') as L3.
      destruct es; [apply progress_err | apply progress_ok; simpl in *; lia].
    + destruct (Ascii.eqb c "e"%char || Ascii.eqb c "E"%char);
        [|apply progress_ok; exact Hl].
      destruct (match r1 with
                | c' :: r4 => if Ascii.eqb c' "-"%char then (true, r4)
                              else if Ascii.eqb c' "+"%char then (false, r4) else (false, r1)
                | [] => (false, [])
                end) as [eneg r4] eqn:Er.
      assert (L2 : (length r4 <= length r1)%nat).
      { destruct r1 as [|c' r3']; [injection Er as _ <-; simpl; lia|].
        destruct (Ascii.eqb c' "-"%char); [injection Er as _ <-; simpl; lia|].
        destruct (Ascii.eqb c' "+"%char); injection Er as _ <-; simpl; lia. }
      destruct (span_digits r4) as [es r5] eqn:Es'.
      pose proof (span_digits_length _ _ _ Es') as L3.
      destruct es; [apply progress_err | apply progress_ok; simpl in *; lia].
Qed.

Lemma parse_number_progress (cs : list ascii) : progress (parse_number cs) cs.
Proof.
  unfold parse_number.
  destruct (match cs with
            | c :: r => if Ascii.eqb c "-"%char then (true, r) else (false, cs)
            | [] => (false, cs)
            end) as [neg cs1] eqn:E.
  assert (L : (length cs1 <= length cs)%nat).
  { destruct cs as [|c r]; [injection E as _ <-; lia|].
    destruct (Ascii.eqb c "-"%char); injection E as _ <-; simpl; lia. }
  destruct cs1 as [|c r]; [apply progress_err|].
  destruct (Ascii.eqb c "0"%char); [apply number_tail_progress; simpl in *; lia|].
  destruct (is_digit c); [|apply progress_err].
  destruct (span_digits r) as [ds r'] eqn:Es.
  pose proof (span_digits_length _ _ _ Es).
  apply number_tail_progress. simpl in *. lia.
Qed.

(** In the mode that only checks the grammar, reading a string literal is
    never [PUns]. *)
Lemma parse_chars_progress (n : nat) (cs : list ascii) :
  (length cs <= n)%nat -> progress (parse_chars false cs) cs.
Proof.
  revert cs. induction n as [|n IH]; intros cs Hl.
  { destruct cs; [apply progress_err | simpl in Hl; lia]. }
  destruct cs as [|c r]; [apply progress_err|].
  cbn [parse_chars]. cbn [length] in Hl.
  destruct (Ascii.eqb c dquote); [apply progress_ok; simpl; lia|].
  destruct (Ascii.eqb c bslash).
  - destruct r as [|e r']; [apply progress_err|].
    assert (Hr' : progress (parse_chars false r') (c :: e :: r')).
    { apply (progress_weaken _ r'); [apply IH; simpl in Hl; lia | simpl; lia]. }
    repeat (destruct (Ascii.eqb e _); [apply progress_pcons, Hr'|]).
    destruct (Ascii.eqb e "u"%char); [|apply progress_err].
    destruct r' as [|h1 [|h2 [|h3 [|h4 r'']]]]; try apply progress_err.
    destruct (hex4 h1 h2 h3 h4) as [u|]; [|apply progress_err].
    assert (Hr'' : progress (parse_chars false r'') (c :: e :: h1 :: h2 :: h3 :: h4 :: r'')).
    { apply (progress_weaken _ r''); [apply IH; simpl in Hl; lia | simpl; lia]. }
    cbv beta zeta. cbn iota.
    destruct ((u <? 55296)%N || (57344 <=? u)%N); [apply progress_pprefix, Hr''|].
    destruct (56320 <=? u)%N; [apply progress_pprefix, Hr''|].
    destruct r'' as [|b [|v [|l1 [|l2 [|l3 [|l4 r4]]]]]]; try (apply progress_pprefix, Hr'').
    destruct (Ascii.eqb b bslash && Ascii.eqb v "u"%char); [|apply progress_pprefix, Hr''].
    destruct (hex4 l1 l2 l3 l4) as [l|]; [|apply progress_pprefix, Hr''].
    destruct ((56320 <=? l)%N && (l <? 57344)%N); [|apply progress_pprefix, Hr''].
    apply progress_pprefix, (progress_weaken _ r4); [apply IH; simpl in Hl; lia | simpl; lia].
  - destruct (nat_of_ascii c <? 32)%nat; [apply progress_err|].
    apply progress_pcons, (progress_weaken _ r); [apply IH; lia | simpl; lia].
Qed.

Lemma skip_ws_cons_length (cs r : list ascii) (c : ascii) :
  skip_ws cs = c :: r -> (S (length r) <= length cs)%nat.
Proof. intros E. pose proof (skip_ws_length cs) as L. rewrite E in L. exact L. Qed.

(** With fuel above twice the length of the text, the grammar check never
    runs out: [parse_value false] is never [PUns], and every step consumes
    text. *)
Lemma parse_fuel (f : nat) :
  (forall cs, (2 * length cs < f)%nat -> progress (parse_value false f cs) cs) /\
  (forall cs acc, (2 * length cs + 2 <= f)%nat -> progress (parse_elems false f cs acc) cs) /\
  (forall cs acc, (2 * length cs + 2 <= f)%nat -> progress (parse_members false f cs acc) cs).
Proof.
  induction f as [|f (IHv & IHe & IHm)].
  { split; [|split]; intros; lia. }
  split; [|split].
  - intros cs Hl. cbn [parse_value].
    pose proof (skip_ws_length cs) as Ls.
    destruct (strip (lit "null") (skip_ws cs)) as [r|] eqn:E1.
    { apply progress_ok. apply strip_length in E1. simpl in E1. lia. }
    destruct (strip (lit "true") (skip_ws cs)) as [r|] eqn:E2.
    { apply progress_ok. apply strip_length in E2. simpl in E2. lia. }
    destruct (strip (lit "false") (skip_ws cs)) as [r|] eqn:E3.
    { apply progress_ok. apply strip_length in E3. simpl in E3. lia. }
    destruct (skip_ws cs) as [|c r] eqn:Ews; [apply progress_err|].
    cbn [length] in Ls.
    destruct (Ascii.eqb c dquote).
    { apply progress_pmap, (progress_weaken _ (c :: r)); [|simpl; lia].
      apply (progress_weaken _ r); [apply (parse_chars_progress (length r)); lia | simpl; lia]. }
    destruct (Ascii.eqb c "["%char).
    { destruct (skip_ws r) as [|c' r'] eqn:Er; [apply progress_err|].
      apply skip_ws_cons_length in Er.
      destruct (Ascii.eqb c' "]"%char); [apply progress_ok; lia|].
      apply (progress_weaken _ r); [apply IHe; lia | lia]. }
    destruct (Ascii.eqb c "{"%char).
    { destruct (skip_ws r) as [|c' r'] eqn:Er; [apply progress_err|].
      apply skip_ws_cons_length in Er.
      destruct (Ascii.eqb c' "}"%char); [apply progress_ok; lia|].
      apply (progress_weaken _ r); [apply IHm; lia | lia]. }
    apply (progress_weaken _ (c :: r)); [apply parse_number_progress | simpl; lia].
  - intros cs acc Hl. cbn [parse_elems].
    destruct (IHv cs ltac:(lia)) as [Hn Hr].
    destruct (parse_value false f cs) as [| |v r] eqn:E;
      [apply progress_err | congruence |].
    specialize (Hr v r eq_refl).
    destruct (skip_ws r) as [|c r'] eqn:Er; [apply progress_err|].
    apply skip_ws_cons_length in Er.
    destruct (Ascii.eqb c ","%char).
    { apply (progress_weaken _ r'); [apply IHe; lia | lia]. }
    destruct (Ascii.eqb c "]"%char); [apply progress_ok; lia | apply progress_err].
  - intros cs acc Hl. cbn [parse_members].
    destruct (skip_ws cs) as [|c r] eqn:Ec; [apply progress_err|].
    apply skip_ws_cons_length in Ec.
    destruct (Ascii.eqb c dquote); [|apply progress_err].
    destruct (parse_chars_progress (length r) r (le_n _)) as [Hn Hr].
    destruct (parse_chars false r) as [| |k r1] eqn:E;
      [apply progress_err | congruence |].
    specialize (Hr k r1 eq_refl).
    destruct (skip_ws r1) as [|c1 r2] eqn:E1; [apply progress_err|].
    apply skip_ws_cons_length in E1.
    destruct (Ascii.eqb c1 ":"%char); [|apply progress_err].
    destruct (IHv r2 ltac:(lia)) as [Hn' Hr'].
    destruct (parse_value false f r2) as [| |v r3] eqn:E';
      [apply progress_err | congruence |].
    specialize (Hr' v r3 eq_refl).
    destruct (skip_ws r3) as [|c3 r4] eqn:E3; [apply progress_err|].
    apply skip_ws_cons_length in E3.
    destruct (Ascii.eqb c3 ","%char).
    { apply (progress_weaken _ r4); [apply IHm; lia | lia]. }
    destruct (Ascii.eqb c3 "}"%char); [apply progress_ok; lia | apply progress_err].
Qed.

(** The fuel [json_parse] gives suffices: its first run is never [PUns]. *)
Lemma json_parse_fuel (cs : list ascii) :
  parse_value false (S (2 * length cs)) cs <> PUns.
Proof. apply (proj1 (parse_fuel (S (2 * length cs)))). lia. Qed.

(** [json_parse] is [PUns] only on a text the grammar accepts. *)
Lemma json_parse_uns (s : string) :
  json_parse s = PUns ->
  exists v r, parse_value false (S (2 * length (list_ascii_of_string s))) (list_ascii_of_string s)
              = POk v r /\ skip_ws r = [].
Proof.
  unfold json_parse. intros H.
  pose proof (json_parse_fuel (list_ascii_of_string s)) as Hf.
  destruct (parse_value false _ _) as [| |v r]; [discriminate H | congruence |].
  destruct (skip_ws r) eqn:E; [exists v, r; auto | discriminate H].
Qed.

(* ------------------------------------------------------------------ *)
(** ** Property reads and writes *)

Lemma get_set_same (o : obj) (k : string) (v : json) : get (set o k v) k = Some v.
Proof.
  induction o as [|[k' v'] o IH]; simpl; [rewrite String.eqb_refl; reflexivity|].
  destruct (String.eqb k k') eqn:E; simpl; rewrite ?E; [reflexivity | exact IH].
Qed.

Lemma get_set_other (o : obj) (k k' : string) (v : json) :
  k' <> k -> get (set o k v) k' = get o k'.
Proof.
  intros Hne. induction o as [|[k0 v0] o IH]; simpl.
  - destruct (String.eqb k' k) eqn:E; [apply String.eqb_eq in E; congruence | reflexivity].
  - destruct (String.eqb k k0) eqn:E; simpl.
    + apply String.eqb_eq in E. subst k0.
      destruct (String.eqb k' k) eqn:E'; [apply String.eqb_eq in E'; congruence | reflexivity].
    + rewrite IH. reflexivity.
Qed.

(** Writing [k] leaves every other property where and what it was. *)
Lemma filter_set (o : obj) (k : string) (v : json) :
  filter (fun kv => negb (String.eqb (fst kv) k)) (set o k v)
  = filter (fun kv => negb (String.eqb (fst kv) k)) o.
Proof.
  induction o as [|[k0 v0] o IH]; simpl.
  - rewrite String.eqb_refl. reflexivity.
  - destruct (String.eqb k k0) eqn:E; simpl.
    + apply String.eqb_eq in E. subst k0. rewrite String.eqb_refl. reflexivity.
    + rewrite String.eqb_sym, E. simpl. rewrite IH. reflexivity.
Qed.

(* ------------------------------------------------------------------ *)
(** ** Lookups *)

Lemma findIndex_some (f : obj -> bool) (l : list obj) (i : nat) :
  findIndex f l = Some i ->
  exists l1 u l2, l = l1 ++ u :: l2 /\ length l1 = i /\ f u = true
                  /\ forall v, In v l1 -> f v = false.
Proof.
  revert i. induction l as [|x l IH]; intros i H; [discriminate|].
  cbn [findIndex] in H. destruct (f x) eqn:Fx.
  - injection H as <-. exists [], x, l. repeat split; [exact Fx | intros v []].
  - destruct (findIndex f l) as [j|] eqn:Fj; [|discriminate].
    injection H as <-. destruct (IH j eq_refl) as (l1 & u & l2 & -> & Hl & Hu & Hv).
    exists (x :: l1), u, l2. simpl. repeat split; auto.
    intros v [<- | Hin]; auto.
Qed.

Lemma findIndex_none (f : obj -> bool) (l : list obj) :
  findIndex f l = None -> forall v, In v l -> f v = false.
Proof.
  induction l as [|x l IH]; [contradiction|].
  simpl. destruct (f x) eqn:Fx; [discriminate|].
  destruct (findIndex f l); [discriminate|].
  intros _ v [<- | Hin]; auto.
Qed.

Lemma findIndex_all_false (f : obj -> bool) (l : list obj) :
  (forall v, In v l -> f v = false) -> findIndex f l = None.
Proof.
  induction l as [|x l IH]; intros H; [reflexivity|].
  simpl. rewrite (H x (or_introl eq_refl)), IH; [reflexivity|].
  intros v Hv. apply H. right. exact Hv.
Qed.

Lemma find_first (f : obj -> bool) (l1 l2 : list obj) (u : obj) :
  (forall v, In v l1 -> f v = false) -> f u = true -> find f (l1 ++ u :: l2) = Some u.
Proof.
  induction l1 as [|x l1 IH]; intros Hl Hu; simpl; [rewrite Hu; reflexivity|].
  rewrite (Hl x (or_introl eq_refl)). apply IH; auto.
  intros v Hv. apply Hl. right. exact Hv.
Qed.

Lemma find_all_false (f : obj -> bool) (l : list obj) :
  (forall v, In v l -> f v = false) -> find f l = None.
Proof.
  induction l as [|x l IH]; intros H; [reflexivity|].
  simpl. rewrite (H x (or_introl eq_refl)). apply IH.
  intros v Hv. apply H. right. exact Hv.
Qed.

Lemma filter_all_true (f : obj -> bool) (l : list obj) :
  (forall v, In v l -> f v = true) -> filter f l = l.
Proof.
  induction l as [|x l IH]; intros H; [reflexivity|].
  simpl. rewrite (H x (or_introl eq_refl)), IH; [reflexivity|].
  intros v Hv. apply H. right. exact Hv.
Qed.

Lemma firstn_skipn_split (l1 l2 : list obj) (u : obj) (i : nat) :
  length l1 = i ->
  firstn i (l1 ++ u :: l2) = l1 /\ skipn (S i) (l1 ++ u :: l2) = l2
  /\ nth_error (l1 ++ u :: l2) i = Some u.
Proof.
  intros <-. rewrite firstn_app, firstn_all, Nat.sub_diag, app_nil_r.
  rewrite skipn_app, Nat.sub_succ_l, Nat.sub_diag by lia.
  rewrite skipn_all2 by lia. rewrite nth_error_app2, Nat.sub_diag by lia.
  auto.
Qed.

(* ------------------------------------------------------------------ *)
(** ** Ids *)

Lemma num_eqb_trans (x y n : num) :
  num_eqb x n = true -> num_eqb y n = true -> num_eqb x y = true.
Proof.
  intros Hx Hy.
  pose proof (num_eqb_eq _ _ Hx). pose proof (num_eqb_eq _ _ Hy). subst. exact Hy.
Qed.

Lemma id_is_clash (n : num) (u v : obj) :
  id_is n u = true -> id_is n v = true -> id_clash (get u "id") (get v "id") = true.
Proof.
  unfold id_is, id_clash.
  destruct (get u "id") as [[| | x | | |]|]; try discriminate;
  destruct (get v "id") as [[| | y | | |]|]; try discriminate.
  apply num_eqb_trans.
Qed.

Lemma existsb_clash (a : option json) (l : list obj) (v : obj) :
  existsb (id_clash a) (map (fun u => get u "id") l) = false -> In v l ->
  id_clash a (get v "id") = false.
Proof.
  intros H Hin. destruct (id_clash a (get v "id")) eqn:E; [|reflexivity].
  rewrite <- H. symmetry. apply existsb_exists. exists (get v "id").
  split; [exact (in_map (fun u => get u "id") l v Hin) | exact E].
Qed.

(** In a collection without shared ids, a record matching [id] is the only
    one. *)
Lemma ids_distinct_only (n : num) (l1 l2 : list obj) (u : obj) :
  ids_distinct (l1 ++ u :: l2) = true -> id_is n u = true ->
  forall v, In v (l1 ++ l2) -> id_is n v = false.
Proof.
  unfold ids_distinct. induction l1 as [|a l1 IH]; intros Hd Hu v Hv;
    simpl in Hd; apply andb_prop in Hd as [Hx Hd]; apply negb_true_iff in Hx.
  - destruct (id_is n v) eqn:E; [|reflexivity].
    pose proof (existsb_clash _ l2 v Hx Hv). pose proof (id_is_clash n u v Hu E).
    congruence.
  - destruct Hv as [<- | Hv]; [|exact (IH Hd Hu v Hv)].
    destruct (id_is n a) eqn:E; [|reflexivity].
    assert (Hin : In u (l1 ++ u :: l2)) by (apply in_or_app; right; left; reflexivity).
    pose proof (existsb_clash _ _ u Hx Hin) as Hc.
    rewrite (id_is_clash n a u E Hu) in Hc. discriminate.
Qed.

Lemma ids_nodup_remove (l1 l2 : list (option json)) (x : option json) :
  ids_nodup (l1 ++ x :: l2) = true -> ids_nodup (l1 ++ l2) = true.
Proof.
  induction l1 as [|a l1 IH]; simpl; intros H; apply andb_prop in H as [H1 H2].
  - exact H2.
  - rewrite (IH H2), andb_true_r. rewrite existsb_app in *. simpl in H1.
    destruct (existsb (id_clash a) l1), (existsb (id_clash a) l2); simpl in *;
      rewrite ?orb_true_r in H1; auto.
Qed.

Lemma ids_nodup_snoc (l : list (option json)) (b : option json) :
  ids_nodup l = true -> (forall a, In a l -> id_clash a b = false) ->
  ids_nodup (l ++ [b]) = true.
Proof.
  induction l as [|a l IH]; intros H Hb; [reflexivity|].
  simpl in *. apply andb_prop in H as [H1 H2].
  rewrite IH; [|exact H2 | intros a' Ha'; apply Hb; right; exact Ha'].
  rewrite existsb_app. simpl. rewrite (Hb a (or_introl eq_refl)).
  rewrite orb_false_r, H1. reflexivity.
Qed.

(* ------------------------------------------------------------------ *)
(** ** The next id *)

Lemma max_id_fold (l : list obj) (a : Z) :
  safe_ids l = true ->
  fold_left max_step l (Some (NFin a)) = Some (NFin (fold_left id_max_step l a)).
Proof.
  revert a. induction l as [|u l IH]; intros a H; [reflexivity|].
  simpl in H. apply andb_prop in H as [Hu Hl]. cbn [fold_left].
  replace (max_step (Some (NFin a)) u) with (Some (NFin (id_max_step a u))).
  - exact (IH _ Hl).
  - unfold safe_id in Hu. unfold max_step, id_max_step.
    destruct (get u "id") as [[| | [z|m0 e0| | |] | | |]|]; try discriminate.
    reflexivity.
Qed.

Lemma id_max_ge (l : list obj) (a : Z) : a <= fold_left id_max_step l a.
Proof.
  revert a. induction l as [|u l IH]; intros a; simpl; [lia|].
  specialize (IH (id_max_step a u)). unfold id_max_step in *.
  destruct (get u "id") as [[| | [z|m0 e0| | |] | | |]|]; lia.
Qed.

Lemma id_max_in (l : list obj) (a z : Z) (u : obj) :
  In u l -> get u "id" = Some (JNum (NFin z)) -> z <= fold_left id_max_step l a.
Proof.
  revert a. induction l as [|x l IH]; intros a Hin Hz; [contradiction|].
  destruct Hin as [-> | Hin]; simpl.
  - pose proof (id_max_ge l (id_max_step a u)). unfold id_max_step in *.
    rewrite Hz in *. lia.
  - apply IH; assumption.
Qed.

Lemma id_max_lt (l : list obj) (a : Z) :
  safe_ids l = true -> a < 2 ^ 53 - 1 -> fold_left id_max_step l a < 2 ^ 53 - 1.
Proof.
  revert a. induction l as [|u l IH]; intros a H Ha; simpl; [lia|].
  simpl in H. apply andb_prop in H as [Hu Hl]. apply IH; [exact Hl|].
  unfold id_max_step, safe_id in *.
  destruct (get u "id") as [[| | [z|m0 e0| | |] | | |]|]; try discriminate.
  apply Z.ltb_lt in Hu. lia.
Qed.

Lemma round_double_small (z : Z) : 0 <= z < 2 ^ 53 -> round_double z = NFin z.
Proof.
  intros Hz. unfold round_double, round_mag.
  rewrite Z.abs_eq by lia.
  replace (z <? 2 ^ 53) with true by (symmetry; apply Z.ltb_lt; lia).
  replace (2 ^ 1024 <=? z) with false
    by (symmetry; apply Z.leb_gt; assert (2 ^ 53 < 2 ^ 1024) by (apply Z.pow_lt_mono_r; lia); lia).
  replace (z <? 0) with false by (symmetry; apply Z.ltb_ge; lia).
  reflexivity.
Qed.

(** On a collection of safe ids, [maxId + 1] is the exact successor of the
    largest id (or 1). *)
Lemma next_id_safe (l : list obj) :
  safe_ids l = true ->
  max_id l = Some (NFin (id_max l))
  /\ js_add (NFin (id_max l)) (NFin 1) = NFin (id_max l + 1)
  /\ 0 <= id_max l
  /\ forall u z, In u l -> get u "id" = Some (JNum (NFin z)) -> z < id_max l + 1.
Proof.
  intros H. unfold max_id, id_max. rewrite (max_id_fold l 0 H).
  pose proof (id_max_ge l 0). pose proof (id_max_lt l 0 H ltac:(lia)).
  repeat split; try lia.
  - simpl. apply round_double_small. lia.
  - intros u z Hin Hz. pose proof (id_max_in l 0 z u Hin Hz). lia.
Qed.

Lemma writeData_users (data : list obj) (w : world) :
  users (snd (writeData data w)) = users w.
Proof. unfold writeData. destruct (write_fault w); reflexivity. Qed.

Lemma replace_at (l : list obj) (i : nat) (u x : obj) :
  nth_error l i = Some u ->
  length (firstn i l ++ x :: skipn (S i) l) = length l
  /\ forall j, j <> i -> nth_error (firstn i l ++ x :: skipn (S i) l) j = nth_error l j.
Proof.
  intros H. destruct (nth_error_split l i H) as (l1 & l2 & -> & Hl).
  destruct (firstn_skipn_split l1 l2 u i Hl) as (-> & -> & _).
  rewrite !length_app. split; [reflexivity|].
  intros j Hj. destruct (Nat.lt_ge_cases j i) as [Hlt | Hge].
  - rewrite !nth_error_app1 by lia. reflexivity.
  - rewrite !nth_error_app2 by lia.
    destruct (j - length l1)%nat as [|k] eqn:E; [lia | reflexivity].
Qed.

Lemma ids_after_replace (l1 l2 : list obj) (u x : obj) :
  get x "id" = get u "id" ->
  map (fun v => get v "id") (l1 ++ x :: l2) = map (fun v => get v "id") (l1 ++ u :: l2).
Proof. intros H. rewrite !map_app. simpl. rewrite H. reflexivity. Qed.

Lemma stringify_arr_head (d : nat) (l : list json) :
  exists r, stringify d (JArr l) = "["%char :: r.
Proof. destruct l; eexists; reflexivity. Qed.

(* ================================================================== *)
(** * The properties of the store *)

(** ** C1: [createUser] *)

(** C1 (counterexample): the payload [{name: 0}] has a name that is neither
    missing nor empty, yet [createUser] refuses it with "Name is a required
    field" and creates nothing, since the check is [!newUser.name]. *)
Lemma createUser_zero_name_refused :
  createUser (JObj [("name", JNum (NFin 0))]) (fresh_world [])
  = (name_required, fresh_world []).
Proof. reflexivity. Qed.

(** C1: on a collection whose ids are integers below 2^53 - 1, with the
    write succeeding, [createUser] refuses (400, state unchanged) a payload
    object whose name is falsy (missing, empty, null, false, 0 or NaN);
    otherwise it sets the payload's id to max(existing ids, 0) + 1, appends
    it, writes the whole collection to the file and answers 201 with the
    record. *)
Theorem createUser_spec (w : world) (fs : obj) :
  write_fault w = None -> safe_ids (users w) = true ->
  let created := set fs "id" (JNum (NFin (id_max (users w) + 1))) in
  let text := json_stringify (JArr (map JObj (users w ++ [created]))) in
  (truthy (get fs "name") = false -> createUser (JObj fs) w = (name_required, w)) /\
  (truthy (get fs "name") = true ->
     createUser (JObj fs) w =
       (Send 201 (JObj created),
        mkWorld (users w ++ [created]) (Present text) None (writes w ++ [text]))).
Proof.
  intros Hf Hs created text.
  destruct (next_id_safe _ Hs) as (Hm & Ha & _).
  split; intros Hn; unfold createUser; rewrite Hn; [reflexivity|].
  simpl negb. cbv iota. rewrite Hm, Ha.
  unfold writeData, with_users. cbn [users write_fault file writes]. rewrite Hf.
  reflexivity.
Qed.

(** On an empty store, [{name: "Diana"}] is stored as the record with id 1. *)
Lemma createUser_spec_witness :
  write_fault (fresh_world []) = None /\ safe_ids (users (fresh_world [])) = true /\
  fst (createUser (JObj [("name", JStr "Diana")]) (fresh_world []))
    = Send 201 (JObj [("name", JStr "Diana"); ("id", JNum (NFin 1))]) /\
  users (snd (createUser (JObj [("name", JStr "Diana")]) (fresh_world [])))
    = [[("name", JStr "Diana"); ("id", JNum (NFin 1))]].
Proof.
  split; [reflexivity|]. split; [reflexivity|].
  destruct (createUser_spec (fresh_world []) [("name", JStr "Diana")] eq_refl eq_refl)
    as [_ H].
  rewrite (H eq_refl). split; reflexivity.
Defined.

(** ** C2: [updateUser] *)

(** C2 (counterexample): on [[{id: 1, name: "Alice"}]], [update(1, {name: 0})]
    has a name neither missing nor empty, yet it is refused with "Name is a
    required field" and the record keeps its name. *)
Lemma updateUser_zero_name_refused :
  updateUser (NFin 1) (JObj [("name", JNum (NFin 0))])
    (fresh_world [[("id", JNum (NFin 1)); ("name", JStr "Alice")]])
  = (name_required, fresh_world [[("id", JNum (NFin 1)); ("name", JStr "Alice")]]).
Proof. reflexivity. Qed.

(** C2: with the write succeeding, [updateUser id] answers 404 (state
    unchanged) when no record has that id; 400 (state unchanged) when the
    payload's name is falsy (missing, empty, null, false, 0 or NaN);
    otherwise it sets the [name] of the first matching record, leaving its
    other fields and every other record as they were, writes the collection
    and answers 200 with the updated record. *)
Theorem updateUser_spec (w : world) (id : num) (fs : obj) :
  write_fault w = None ->
  (findIndex (id_is id) (users w) = None -> updateUser id (JObj fs) w = (not_found, w)) /\
  (forall i, findIndex (id_is id) (users w) = Some i ->
     truthy (get fs "name") = false -> updateUser id (JObj fs) w = (name_required, w)) /\
  (forall i u nm,
     findIndex (id_is id) (users w) = Some i -> nth_error (users w) i = Some u ->
     get fs "name" = Some nm -> truthy (Some nm) = true ->
     let u' := set u "name" nm in
     let l' := firstn i (users w) ++ u' :: skipn (S i) (users w) in
     let text := json_stringify (JArr (map JObj l')) in
     updateUser id (JObj fs) w = (Send 200 (JObj u'), mkWorld l' (Present text) None (writes w ++ [text]))
     /\ get u' "name" = Some nm /\ (forall k, k <> "name" -> get u' k = get u k)
     /\ length l' = length (users w)
     /\ (forall j, j <> i -> nth_error l' j = nth_error (users w) j)).
Proof.
  intros Hf. split; [|split].
  - intros Hi. unfold updateUser. rewrite Hi. reflexivity.
  - intros i Hi Hn. unfold updateUser. rewrite Hi.
    destruct (get fs "name") as [nm|] eqn:E; [|reflexivity].
    rewrite Hn. reflexivity.
  - intros i u nm Hi Hu Hnm Ht u' l' text.
    destruct (replace_at (users w) i u u' Hu) as [Hlen Hnth].
    split; [|split; [apply get_set_same|split; [|split; [exact Hlen | exact Hnth]]]].
    + unfold updateUser. rewrite Hi, Hnm, Ht. simpl negb. cbv iota. rewrite Hu.
      unfold writeData, with_users. cbn [users write_fault file writes]. rewrite Hf.
      reflexivity.
    + intros k Hk. apply get_set_other. exact Hk.
Qed.

(** On [[{id: 1, name: "Alice"}]], [update(1, {name: "Alice Smith"})]
    answers the record renamed; [update(99, {name: "X"})] answers 404. *)
Lemma updateUser_spec_witness :
  write_fault (fresh_world [[("id", JNum (NFin 1)); ("name", JStr "Alice")]]) = None /\
  fst (updateUser (NFin 1) (JObj [("name", JStr "Alice Smith")])
         (fresh_world [[("id", JNum (NFin 1)); ("name", JStr "Alice")]]))
    = Send 200 (JObj [("id", JNum (NFin 1)); ("name", JStr "Alice Smith")]) /\
  updateUser (NFin 99) (JObj [("name", JStr "X")])
    (fresh_world [[("id", JNum (NFin 1)); ("name", JStr "Alice")]])
  = (not_found, fresh_world [[("id", JNum (NFin 1)); ("name", JStr "Alice")]]).
Proof.
  split; [reflexivity|].
  destruct (updateUser_spec (fresh_world [[("id", JNum (NFin 1)); ("name", JStr "Alice")]])
              (NFin 1) [("name", JStr "Alice Smith")] eq_refl) as (_ & _ & H1).
  destruct (updateUser_spec (fresh_world [[("id", JNum (NFin 1)); ("name", JStr "Alice")]])
              (NFin 99) [("name", JStr "X")] eq_refl) as (H2 & _ & _).
  split.
  - destruct (H1 O [("id", JNum (NFin 1)); ("name", JStr "Alice")] (JStr "Alice Smith")
                eq_refl eq_refl eq_refl eq_refl) as [-> _].
    reflexivity.
  - exact (H2 eq_refl).
Defined.

(** ** C3: [deleteUser] *)

(** C3: on a collection where no two records share an id, with the write
    succeeding, [deleteUser id] answers 404 (state unchanged) when no record
    has that id; otherwise it removes exactly the record with that id (the
    others keep their values and order), writes the collection and answers
    204 with no body, after which [getUserById id] answers 404. *)
Theorem deleteUser_spec (w : world) (id : num) :
  ids_distinct (users w) = true -> write_fault w = None ->
  ((forall u, In u (users w) -> id_is id u = false) -> deleteUser id w = (not_found, w)) /\
  (forall u, In u (users w) -> id_is id u = true ->
     fst (deleteUser id w) = NoContent
     /\ users (snd (deleteUser id w)) = filter (fun v => negb (id_is id v)) (users w)
     /\ length (users (snd (deleteUser id w))) = pred (length (users w))
     /\ file (snd (deleteUser id w))
        = Present (json_stringify (JArr (map JObj (users (snd (deleteUser id w))))))
     /\ fst (getUserById id (snd (deleteUser id w))) = not_found).
Proof.
  intros Hd Hf. split.
  - intros Hno. unfold deleteUser. rewrite (findIndex_all_false _ _ Hno). reflexivity.
  - intros u Hin Hu.
    destruct (findIndex (id_is id) (users w)) as [i|] eqn:Hi;
      [|rewrite (findIndex_none _ _ Hi u Hin) in Hu; discriminate].
    destruct (findIndex_some _ _ _ Hi) as (l1 & u0 & l2 & Hl & Hlen & Hu0 & Hl1).
    destruct (firstn_skipn_split l1 l2 u0 i Hlen) as (Hfi & Hsk & _).
    rewrite Hl in Hd.
    pose proof (ids_distinct_only id l1 l2 u0 Hd Hu0) as Hrest.
    unfold deleteUser. rewrite Hi, Hl, Hfi, Hsk.
    unfold writeData, with_users. cbn [users write_fault file writes]. rewrite Hf.
    cbn [fst snd users file].
    split; [reflexivity|]. split; [|split; [|split]].
    + rewrite filter_app. cbn [filter]. rewrite Hu0. cbn [negb].
      rewrite !filter_all_true; [reflexivity| |];
        intros v Hv; apply negb_true_iff; apply Hrest; apply in_or_app; auto.
    + rewrite !length_app. cbn [length]. lia.
    + reflexivity.
    + unfold getUserById. cbn [users]. rewrite find_all_false; [reflexivity|].
      exact Hrest.
Qed.

(** Deleting id 2 from the records with ids 1, 2, 3 leaves ids 1 and 3. *)
Lemma deleteUser_spec_witness :
  ids_distinct [[("id", JNum (NFin 1))]; [("id", JNum (NFin 2))]; [("id", JNum (NFin 3))]] = true /\
  write_fault (fresh_world [[("id", JNum (NFin 1))]; [("id", JNum (NFin 2))]; [("id", JNum (NFin 3))]]) = None /\
  fst (deleteUser (NFin 2)
         (fresh_world [[("id", JNum (NFin 1))]; [("id", JNum (NFin 2))]; [("id", JNum (NFin 3))]]))
    = NoContent /\
  users (snd (deleteUser (NFin 2)
         (fresh_world [[("id", JNum (NFin 1))]; [("id", JNum (NFin 2))]; [("id", JNum (NFin 3))]])))
    = [[("id", JNum (NFin 1))]; [("id", JNum (NFin 3))]] /\
  fst (getUserById (NFin 2) (snd (deleteUser (NFin 2)
         (fresh_world [[("id", JNum (NFin 1))]; [("id", JNum (NFin 2))]; [("id", JNum (NFin 3))]]))))
    = not_found.
Proof.
  split; [reflexivity|]. split; [reflexivity|].
  destruct (deleteUser_spec
              (fresh_world [[("id", JNum (NFin 1))]; [("id", JNum (NFin 2))]; [("id", JNum (NFin 3))]])
              (NFin 2) eq_refl eq_refl) as [_ H].
  destruct (H [("id", JNum (NFin 2))] (or_intror (or_introl eq_refl)) eq_refl)
    as (H1 & H2 & _ & _ & H5).
  split; [exact H1|]. split; [rewrite H2; reflexivity | exact H5].
Defined.

(** ** C4: unique ids *)

(** C4 (counterexample): a record with id 2^53 (a valid JSON number in the
    file) makes [maxId + 1] round back to 2^53, so [createUser] gives the new
    record the same id: the ids are distinct before and shared after. *)
Lemma createUser_duplicates_id :
  ids_distinct (users (fresh_world [[("id", JNum (NFin (2 ^ 53))); ("name", JStr "a")]])) = true
  /\ users (snd (createUser (JObj [("name", JStr "b")])
                  (fresh_world [[("id", JNum (NFin (2 ^ 53))); ("name", JStr "a")]])))
     = [[("id", JNum (NFin (2 ^ 53))); ("name", JStr "a")];
        [("name", JStr "b"); ("id", JNum (NFin (2 ^ 53)))]]
  /\ ids_distinct (users (snd (createUser (JObj [("name", JStr "b")])
                  (fresh_world [[("id", JNum (NFin (2 ^ 53))); ("name", JStr "a")]])))) = false.
Proof. split; [reflexivity | split; reflexivity]. Qed.

(** C4: on a collection where no two records share an id and every id is
    an integer below 2^53 - 1, every [createUser], [updateUser] and
    [deleteUser] (whatever the payload, whether the write succeeds or not)
    leaves a collection where no two records share an id. *)
Theorem ids_distinct_preserved (w : world) :
  ids_distinct (users w) = true -> safe_ids (users w) = true ->
  (forall p, ids_distinct (users (snd (createUser p w))) = true) /\
  (forall id p, ids_distinct (users (snd (updateUser id p w))) = true) /\
  (forall id, ids_distinct (users (snd (deleteUser id w))) = true).
Proof.
  intros Hd Hs. split; [|split].
  - intros p. destruct (next_id_safe _ Hs) as (Hm & Ha & _ & Hlt).
    destruct p as [| | | | | fs]; try exact Hd.
    unfold createUser. destruct (negb (truthy (get fs "name"))); [exact Hd|].
    rewrite Hm, Ha.
    match goal with |- context [writeData ?d ?w1] =>
      destruct (writeData d w1) as [[e|] w2] eqn:E;
      assert (Hw2 : users w2 = users w1)
        by (rewrite <- (writeData_users d w1), E; reflexivity) end;
    cbn [snd]; rewrite Hw2; cbn [with_users users];
    unfold ids_distinct; rewrite map_app; cbn [map]; rewrite get_set_same;
    apply ids_nodup_snoc; try exact Hd;
    intros a Ha'; apply in_map_iff in Ha' as (v & <- & Hv);
    assert (Hsv : safe_id (get v "id") = true)
      by (unfold safe_ids in Hs; rewrite forallb_forall in Hs; exact (Hs v Hv));
    unfold safe_id in Hsv; destruct (get v "id") as [[| | [z|m0 e0| | |] | | |]|] eqn:Ev;
      try discriminate;
    cbn [id_clash num_eqb]; apply Z.eqb_neq; pose proof (Hlt v z Hv Ev); lia.
  - intros id p. unfold updateUser.
    destruct (findIndex (id_is id) (users w)) as [i|] eqn:Hi; [|exact Hd].
    destruct (findIndex_some _ _ _ Hi) as (l1 & u0 & l2 & Hl & Hlen & _ & _).
    destruct (firstn_skipn_split l1 l2 u0 i Hlen) as (Hfi & Hsk & Hnth).
    destruct p as [| | | | | fs]; try exact Hd.
    destruct (get fs "name") as [nm|]; [|exact Hd].
    destruct (negb (truthy (Some nm))); [exact Hd|].
    rewrite Hl, Hnth, Hfi, Hsk.
    match goal with |- context [writeData ?d ?w1] =>
      destruct (writeData d w1) as [[e|] w2] eqn:E;
      assert (Hw2 : users w2 = users w1)
        by (rewrite <- (writeData_users d w1), E; reflexivity) end;
    cbn [snd]; rewrite Hw2; cbn [with_users users]; unfold ids_distinct;
    rewrite (ids_after_replace l1 l2 u0) by (apply get_set_other; discriminate);
    rewrite <- Hl; exact Hd.
  - intros id. unfold deleteUser.
    destruct (findIndex (id_is id) (users w)) as [i|] eqn:Hi; [|exact Hd].
    destruct (findIndex_some _ _ _ Hi) as (l1 & u0 & l2 & Hl & Hlen & _ & _).
    destruct (firstn_skipn_split l1 l2 u0 i Hlen) as (Hfi & Hsk & _).
    rewrite Hl, Hfi, Hsk.
    match goal with |- context [writeData ?d ?w1] =>
      destruct (writeData d w1) as [[e|] w2] eqn:E;
      assert (Hw2 : users w2 = users w1)
        by (rewrite <- (writeData_users d w1), E; reflexivity) end;
    cbn [snd]; rewrite Hw2; cbn [with_users users]; unfold ids_distinct;
    rewrite map_app; apply (ids_nodup_remove _ _ (get u0 "id"));
    rewrite Hl in Hd; unfold ids_distinct in Hd; rewrite map_app in Hd; exact Hd.
Qed.

(** Two records with ids 1 and 2. *)
Lemma ids_distinct_preserved_witness :
  ids_distinct [[("id", JNum (NFin 1))]; [("id", JNum (NFin 2))]] = true /\
  safe_ids [[("id", JNum (NFin 1))]; [("id", JNum (NFin 2))]] = true /\
  ids_distinct (users (snd (createUser (JObj [("name", JStr "c")])
                  (fresh_world [[("id", JNum (NFin 1))]; [("id", JNum (NFin 2))]])))) = true.
Proof.
  split; [reflexivity|]. split; [reflexivity|].
  destruct (ids_distinct_preserved (fresh_world [[("id", JNum (NFin 1))]; [("id", JNum (NFin 2))]])
              eq_refl eq_refl) as [H _].
  exact (H (JObj [("name", JStr "c")])).
Defined.

(** ** C5: loading at startup *)

(** C5 (counterexample): an existing but empty [users.json] is not valid
    JSON, yet [readData] loads it as [[]] and the server starts serving
    instead of exiting. *)
Lemma empty_file_starts_server :
  json_parse "" = PErr
  /\ readData (mkWorld [] (Present "") None []) = RdOk (JArr [])
  /\ initializeServer (mkWorld [] (Present "") None []) = Serving (JArr []).
Proof. repeat split. Qed.

(** C5: a missing file loads as the empty collection and the server
    serves it; an existing empty file does the same; a non-empty file that
    is not valid JSON makes [readData] throw a SyntaxError and
    [initializeServer] exit with code 1. *)
Theorem load_startup (w : world) :
  (file w = Absent ->
     readData w = RdOk (JArr []) /\ initializeServer w = Serving (JArr [])) /\
  (file w = Present "" ->
     readData w = RdOk (JArr []) /\ initializeServer w = Serving (JArr [])) /\
  (forall data, file w = Present data -> data <> "" -> json_parse data = PErr ->
     readData w = RdThrow "SyntaxError" /\ initializeServer w = Exited 1).
Proof.
  unfold initializeServer, readData.
  split; [|split]; [intros -> ; split; reflexivity | intros -> ; split; reflexivity |].
  intros data -> Hne Hp.
  replace (String.eqb data "") with false
    by (symmetry; apply String.eqb_neq; exact Hne).
  cbv iota. simpl negb. cbv iota. rewrite Hp. split; reflexivity.
Qed.

(** A file holding a number cut after its point, and an array cut before
    its closing bracket: the server exits. *)
Lemma load_startup_witness :
  initializeServer (mkWorld [] (Present "1.") None []) = Exited 1 /\
  initializeServer (mkWorld [] (Present "[1.5, 2") None []) = Exited 1.
Proof.
  split.
  - refine (proj2 (proj2 (proj2 (load_startup (mkWorld [] (Present "1.") None [])))
                    "1." eq_refl _ _)); [discriminate | reflexivity].
  - refine (proj2 (proj2 (proj2 (load_startup (mkWorld [] (Present "[1.5, 2") None [])))
                    "[1.5, 2" eq_refl _ _)); [discriminate | reflexivity].
Defined.

(** ** C6: a refused creation changes nothing *)

(** C6: for every state, a payload whose [name] is falsy (for an object:
    missing, empty, null, false, 0 or NaN; a number, string or array has no
    [name]) is refused with "Name is a required field", and the state, the
    file and the log of writes are left as they were. *)
Theorem createUser_refused_no_write (w : world) (p : json) :
  match p with
  | JObj fs => truthy (get fs "name") = false
  | JNull => False
  | _ => True
  end ->
  createUser p w = (name_required, w).
Proof.
  intros H. destruct p as [| | | | | fs]; try contradiction; try reflexivity.
  unfold createUser. rewrite H. reflexivity.
Qed.

(** [create({})] on the records of the scenarios. *)
Lemma createUser_refused_no_write_witness :
  truthy (get [] "name") = false /\
  createUser (JObj []) (fresh_world [[("id", JNum (NFin 1)); ("name", JStr "Alice")]])
  = (name_required, fresh_world [[("id", JNum (NFin 1)); ("name", JStr "Alice")]]).
Proof.
  split; [reflexivity|].
  apply (createUser_refused_no_write
           (fresh_world [[("id", JNum (NFin 1)); ("name", JStr "Alice")]]) (JObj [])).
  reflexivity.
Defined.

(** ** C7: [getUserById] *)

(** C7: [getUserById id] answers 200 with the first record whose id is
    [=== id] (the records before it do not match), and 404 when no record
    matches; the state is unchanged. *)
Theorem getUserById_spec (id : num) (w : world) :
  (forall l1 u l2, users w = l1 ++ u :: l2 -> id_is id u = true ->
     (forall v, In v l1 -> id_is id v = false) ->
     getUserById id w = (Send 200 (JObj u), w)) /\
  ((forall v, In v (users w) -> id_is id v = false) -> getUserById id w = (not_found, w)).
Proof.
  unfold getUserById. split.
  - intros l1 u l2 Hl Hu Hl1. rewrite Hl, (find_first _ l1 l2 u Hl1 Hu). reflexivity.
  - intros H. rewrite (find_all_false _ _ H). reflexivity.
Qed.

(** ** C8: saving then loading *)

(** C8 (counterexample): a record with an infinite field (a client can send
    a numeric literal too large for a double, which JSON.parse reads as
    Infinity) is written as [null], so loading the saved collection gives a
    different record. *)
Lemma save_load_infinity :
  readData (snd (writeData [[("id", JNum (NFin 1)); ("score", JNum NPosInf)]] (fresh_world [])))
  = RdOk (JArr [JObj [("id", JNum (NFin 1)); ("score", JNull)]]).
Proof. vm_compute. reflexivity. Qed.

(** C8: when the write succeeds and every number in the records is finite
    (and no record has a key twice, as no JS object does), loading what
    [writeData] saved gives back the same records in the same order with
    the same field values. *)
Theorem save_load_roundtrip (us : list obj) (w : world) :
  write_fault w = None -> wf_json (JArr (map JObj us)) = true ->
  readData (snd (writeData us w)) = RdOk (JArr (map JObj us)).
Proof.
  intros Hf Hwf. unfold writeData. rewrite Hf. cbn [snd]. unfold readData. cbn [file].
  destruct (stringify_arr_head 0 (map JObj us)) as [r Hr].
  unfold json_stringify at 1. rewrite Hr. cbn [string_of_list_ascii String.eqb negb].
  rewrite (json_parse_stringify _ Hwf). reflexivity.
Qed.

(** A record with an integer id, the fractions 1.5, 0.1 and -0.1 (the
    doubles nearest to them) and 10^21, which is written [1e+21]. *)
Lemma save_load_roundtrip_witness :
  let us := [[("id", JNum (NFin 1)); ("score", JNum (NFrac 3 1));
              ("ratio", JNum (NFrac 3602879701896397 55));
              ("loss", JNum (NFrac (-3602879701896397) 55));
              ("big", JNum (NFin (10 ^ 21)))]] in
  write_fault (fresh_world []) = None /\
  wf_json (JArr (map JObj us)) = true /\
  readData (snd (writeData us (fresh_world []))) = RdOk (JArr (map JObj us)).
Proof.
  cbv zeta. split; [reflexivity|]. split; [vm_compute; reflexivity|].
  match goal with
  | |- readData (snd (writeData ?us _)) = _ =>
      exact (save_load_roundtrip us (fresh_world []) eq_refl eq_refl)
  end.
Defined.

(** ** C9: extra fields of a created record *)

(** C9 (counterexample): an [id] sent by the client is not stored verbatim:
    [{name: "Eve", id: 42}] is created with id 1. *)
Lemma createUser_overwrites_client_id :
  fst (createUser (JObj [("name", JStr "Eve"); ("id", JNum (NFin 42))]) (fresh_world []))
  = Send 201 (JObj [("name", JStr "Eve"); ("id", JNum (NFin 1))]).
Proof. reflexivity. Qed.

(** C9: when [createUser] accepts a payload object, the stored record (also
    when the write fails) is the payload with its [id] set: every field
    other than [id] is kept with its value and in its place, unvalidated. *)
Theorem createUser_keeps_fields (w : world) (fs : obj) (m : num) :
  truthy (get fs "name") = true -> max_id (users w) = Some m ->
  let created := set fs "id" (JNum (js_add m (NFin 1))) in
  users (snd (createUser (JObj fs) w)) = users w ++ [created]
  /\ filter (fun kv => negb (String.eqb (fst kv) "id")) created
     = filter (fun kv => negb (String.eqb (fst kv) "id")) fs
  /\ (forall k, k <> "id" -> get created k = get fs k)
  /\ get created "id" = Some (JNum (js_add m (NFin 1))).
Proof.
  intros Hn Hm created. split; [|split; [apply filter_set | split]].
  - unfold createUser. rewrite Hn. simpl negb. cbv iota. rewrite Hm.
    match goal with |- context [writeData ?d ?w1] =>
      destruct (writeData d w1) as [[e|] w2] eqn:E;
      assert (Hw2 : users w2 = users w1)
        by (rewrite <- (writeData_users d w1), E; reflexivity) end;
    exact Hw2.
  - intros k Hk. apply get_set_other. exact Hk.
  - apply get_set_same.
Qed.

(** A payload with an extra field [role]. *)
Lemma createUser_keeps_fields_witness :
  truthy (get [("name", JStr "Diana"); ("role", JStr "admin")] "name") = true /\
  max_id (users (fresh_world [])) = Some (NFin 0) /\
  users (snd (createUser (JObj [("name", JStr "Diana"); ("role", JStr "admin")]) (fresh_world [])))
  = [[("name", JStr "Diana"); ("role", JStr "admin"); ("id", JNum (NFin 1))]].
Proof.
  split; [reflexivity|]. split; [reflexivity|].
  destruct (createUser_keeps_fields (fresh_world []) [("name", JStr "Diana"); ("role", JStr "admin")]
              (NFin 0) eq_refl eq_refl) as [H _].
  rewrite H. reflexivity.
Defined.

(** ** C10: an empty file *)

(** C10: an existing file with empty content loads as the empty
    collection, although [JSON.parse("")] throws; a non-empty file that is
    not valid JSON makes [readData] throw a SyntaxError. *)
Theorem empty_file_loads_empty (w : world) :
  (file w = Present "" -> readData w = RdOk (JArr [])) /\
  json_parse "" = PErr /\
  (forall data, file w = Present data -> data <> "" -> json_parse data = PErr ->
     readData w = RdThrow "SyntaxError").
Proof.
  unfold readData. split; [intros ->; reflexivity | split; [reflexivity|]].
  intros data -> Hne Hp.
  replace (String.eqb data "") with false
    by (symmetry; apply String.eqb_neq; exact Hne).
  cbv iota. simpl negb. cbv iota. rewrite Hp. reflexivity.
Qed.

(* ================================================================== *)
(** * Requests and routing *)

(** ** Reading an id out of the URL *)

Lemma digit_facts (c : ascii) :
  is_digit c = true ->
  is_js_space c = false /\ Ascii.eqb c "-"%char = false /\ Ascii.eqb c "+"%char = false.
Proof.
  destruct c as [[] [] [] [] [] [] [] []]; vm_compute;
    intros H; try discriminate H; repeat split.
Qed.

Lemma digits_uint_chars_tail (u : Decimal.uint) (rest : list ascii) :
  match rest with [] => True | c :: _ => is_digit c = false end ->
  digits (uint_chars u ++ rest) = (u, rest).
Proof.
  intros Hf. induction u; simpl; try (rewrite IHu; reflexivity).
  destruct rest as [|c r]; [reflexivity|]. simpl. rewrite Hf. reflexivity.
Qed.

Lemma parseInt_digit_run (neg : bool) (p : positive) (rest : list ascii) :
  match rest with [] => True | c :: _ => is_digit c = false end ->
  parseInt ((if neg then ["-"%char] else []) ++ uint_chars (Pos.to_uint p) ++ rest)
  = round_double (if neg then Zneg p else Zpos p).
Proof.
  intros Hf.
  pose proof (DecimalPos.Unsigned.to_uint_nonnil p) as Hnil.
  destruct (uint_chars_head p) as (c & r & E & Hd & H0 & _).
  destruct (digit_facts c Hd) as (Hs & Hm & Hp).
  pose proof (digits_uint_chars_tail (Pos.to_uint p) rest Hf) as Hdig.
  rewrite E in Hdig |- *. simpl app in Hdig |- *. clear E.
  remember (r ++ rest) as t eqn:Ht; clear Ht.
  replace (if neg then Zneg p else Zpos p)
    with (if neg then - Z.of_uint (Pos.to_uint p) else Z.of_uint (Pos.to_uint p))
    by (rewrite Z_of_uint_to_uint; destruct neg; reflexivity).
  unfold parseInt.
  destruct neg; cbn [trim_start app].
  - replace (is_js_space "-"%char) with false by reflexivity.
    replace (Ascii.eqb "-"%char "-"%char) with true by reflexivity. cbv iota.
    destruct t as [|cx t]; [|rewrite H0; cbn [andb]]; rewrite Hdig;
      destruct (Pos.to_uint p); (congruence || reflexivity).
  - rewrite Hs, Hm, Hp.
    destruct t as [|cx t]; [|rewrite H0; cbn [andb]]; rewrite Hdig;
      destruct (Pos.to_uint p); (congruence || reflexivity).
Qed.

Lemma parseInt_number (z : Z) (rest : list ascii) :
  id_tail_ok rest -> parseInt (int_chars z ++ rest) = round_double z.
Proof.
  intros Ht.
  assert (Hf : match rest with [] => True | c :: _ => is_digit c = false end)
    by (destruct rest; [exact I | apply Ht]).
  destruct z as [|p|p].
  - destruct rest as [|c r]; [reflexivity|]. destruct Ht as (Hd & Hx & HX).
    apply Ascii.eqb_neq in Hx, HX.
    unfold parseInt. cbn [int_chars trim_start app].
    replace (is_js_space "0"%char) with false by reflexivity.
    replace (Ascii.eqb "0"%char "-"%char) with false by reflexivity.
    replace (Ascii.eqb "0"%char "+"%char) with false by reflexivity.
    replace (Ascii.eqb "0"%char "0"%char) with true by reflexivity.
    cbv iota. rewrite Hx, HX. cbn [andb orb].
    replace (digits ("0"%char :: c :: r)) with (Decimal.D0 Decimal.Nil, c :: r)
      by (simpl; rewrite Hd; reflexivity).
    reflexivity.
  - exact (parseInt_digit_run false p rest Hf).
  - exact (parseInt_digit_run true p rest Hf).
Qed.

Lemma parseInt_not_number (seg : list ascii) :
  seg_starts_number seg = false -> parseInt seg = NNaN.
Proof.
  destruct seg as [|c r]; [reflexivity|].
  simpl. intros H. apply orb_false_elim in H as [H Hm].
  apply orb_false_elim in H as [H Hp]. apply orb_false_elim in H as [Hd Hs].
  assert (H0 : Ascii.eqb c "0"%char = false).
  { destruct (Ascii.eqb_spec c "0"%char) as [->|]; [discriminate Hd | reflexivity]. }
  unfold parseInt. cbn [trim_start]. rewrite Hs, Hm, Hp. cbv iota.
  replace (digits (c :: r)) with (Decimal.Nil, c :: r) by (simpl; rewrite Hd; reflexivity).
  destruct r as [|cx r]; [reflexivity|]. rewrite H0. reflexivity.
Qed.

(** ** Splitting the URL *)

Lemma split_on_nonnil (sep : ascii) (cs : list ascii) :
  exists seg segs, split_on sep cs = seg :: segs.
Proof.
  induction cs as [|c cs (seg & segs & IH)]; simpl; [eexists; eexists; reflexivity|].
  destruct (Ascii.eqb c sep); [eexists; eexists; reflexivity|].
  rewrite IH. eexists; eexists; reflexivity.
Qed.

(** The first segment of [cs] is empty or starts with the first character
    of [cs]. *)
Lemma split_on_first (sep : ascii) (cs seg : list ascii) (segs : list (list ascii)) :
  split_on sep cs = seg :: segs ->
  seg = [] \/ exists c r r', cs = c :: r /\ seg = c :: r'.
Proof.
  destruct cs as [|c r]; simpl; intros H.
  - left. congruence.
  - destruct (Ascii.eqb c sep); [left; congruence|].
    destruct (split_on_nonnil sep r) as (s0 & ss & E). rewrite E in H.
    right. exists c, r, s0. split; congruence.
Qed.

Lemma split_on_app (sep : ascii) (ds rest seg : list ascii) (segs : list (list ascii)) :
  forallb (fun c => negb (Ascii.eqb c sep)) ds = true ->
  split_on sep rest = seg :: segs -> split_on sep (ds ++ rest) = (ds ++ seg) :: segs.
Proof.
  intros Hd Hr. induction ds as [|c ds IH]; [exact Hr|].
  simpl in Hd |- *. apply andb_prop in Hd as [Hc Hd]. apply negb_true_iff in Hc.
  rewrite Hc, (IH Hd). reflexivity.
Qed.

Lemma int_chars_no_slash (z : Z) :
  forallb (fun c => negb (Ascii.eqb c "/"%char)) (int_chars z) = true.
Proof.
  assert (Hu : forall u, forallb (fun c => negb (Ascii.eqb c "/"%char)) (uint_chars u) = true)
    by (induction u; simpl; auto).
  destruct z; simpl; auto.
Qed.

Lemma users_url (cs : list ascii) :
  let url := string_of_list_ascii (lit "/api/users/" ++ cs) in
  starts_with_users url = true /\ String.eqb url "/api/users" = false /\
  (forall seg segs, split_on "/"%char cs = seg :: segs -> url_id url = parseInt seg).
Proof.
  cbv zeta. unfold starts_with_users, url_id.
  rewrite String.list_ascii_of_string_of_list_ascii.
  split; [reflexivity|]. split; [reflexivity|].
  intros seg segs H. simpl. rewrite H. reflexivity.
Qed.

(** ** Dispatch *)

Lemma id_is_nan (u : obj) : id_is NNaN u = false.
Proof.
  unfold id_is. destruct (get u "id") as [[| | [] | | |]|]; reflexivity.
Qed.

Lemma serverHandler_id_routes (z : Z) (rest : list ascii) (body : string) (w : world) :
  id_tail_ok rest ->
  let url := string_of_list_ascii (lit "/api/users/" ++ int_chars z ++ rest) in
  serverHandler "GET" url body w = getUserById (round_double z) w /\
  serverHandler "PUT" url body w = updateUser_req (round_double z) body w /\
  serverHandler "DELETE" url body w = deleteUser (round_double z) w.
Proof.
  intros Ht. cbv zeta.
  destruct (split_on_nonnil "/"%char rest) as (seg & segs & Hs).
  pose proof (split_on_app _ _ _ _ _ (int_chars_no_slash z) Hs) as Hs'.
  assert (Hseg : id_tail_ok seg).
  { destruct (split_on_first _ _ _ _ Hs) as [-> | (c & r & r' & -> & ->)];
      [exact I | exact Ht]. }
  destruct (users_url (int_chars z ++ rest)) as (Hst & Heq & Hid).
  cbv zeta in Hst, Heq, Hid.
  unfold serverHandler. rewrite Hst, Heq.
  rewrite (Hid _ _ Hs'), (parseInt_number z seg Hseg).
  repeat split; reflexivity.
Qed.

Lemma serverHandler_nan_routes (seg : list ascii) (body : string) (w : world) :
  seg_starts_number seg = false ->
  let url := string_of_list_ascii (lit "/api/users/" ++ seg) in
  serverHandler "GET" url body w = (not_found, w) /\
  serverHandler "PUT" url body w = (not_found, w) /\
  serverHandler "DELETE" url body w = (not_found, w).
Proof.
  intros Hn. cbv zeta.
  destruct (split_on_nonnil "/"%char seg) as (s0 & segs & Hs).
  assert (Hs0 : seg_starts_number s0 = false).
  { destruct (split_on_first _ _ _ _ Hs) as [-> | (c & r & r' & -> & ->)];
      [reflexivity | exact Hn]. }
  destruct (users_url seg) as (Hst & Heq & Hid). cbv zeta in Hst, Heq, Hid.
  unfold serverHandler. rewrite Hst, Heq, (Hid _ _ Hs), (parseInt_not_number s0 Hs0).
  cbn [String.eqb andb Ascii.eqb Bool.eqb].
  assert (Hall : forall v, In v (users w) -> id_is NNaN v = false)
    by (intros v _; apply id_is_nan).
  unfold getUserById, updateUser_req, deleteUser.
  rewrite (find_all_false _ _ Hall), (findIndex_all_false _ _ Hall).
  repeat split; reflexivity.
Qed.

(** X1: a GET request never changes the state, whatever its URL; GET
    /api/users answers 200 with every record, in order. *)
Theorem get_requests_read_only (url body : string) (w : world) :
  snd (serverHandler "GET" url body w) = w /\
  serverHandler "GET" "/api/users" body w = (Send 200 (JArr (map JObj (users w))), w).
Proof.
  split; [|reflexivity].
  unfold serverHandler. cbn [String.eqb Ascii.eqb Bool.eqb andb].
  destruct (String.eqb url "/api/users"); [reflexivity|].
  destruct (starts_with_users url); [|reflexivity].
  unfold getUserById. destruct (find _ _); reflexivity.
Qed.

(** X2: a URL "/api/users/<n>" where <n> is the decimal text of an integer
    (optionally followed by "/", "?" or any character that is not a digit,
    "x" or "X") routes GET, PUT and DELETE to [getUserById],
    [updateUser] and [deleteUser] with the id [parseInt] reads, the
    integer rounded to a double. *)
Theorem route_user_id (z : Z) (rest : list ascii) (body : string) (w : world) :
  id_tail_ok rest ->
  let url := string_of_list_ascii (lit "/api/users/" ++ int_chars z ++ rest) in
  serverHandler "GET" url body w = getUserById (round_double z) w /\
  serverHandler "PUT" url body w = updateUser_req (round_double z) body w /\
  serverHandler "DELETE" url body w = deleteUser (round_double z) w.
Proof. exact (serverHandler_id_routes z rest body w). Qed.

(** "/api/users/12?x=1" routes to the id 12. *)
Lemma route_user_id_witness :
  id_tail_ok (lit "?x=1") /\
  serverHandler "GET" "/api/users/12?x=1" "" (fresh_world [[("id", JNum (NFin 12))]])
  = (Send 200 (JObj [("id", JNum (NFin 12))]), fresh_world [[("id", JNum (NFin 12))]]).
Proof.
  split; [repeat split; discriminate|].
  destruct (route_user_id 12 (lit "?x=1") "" (fresh_world [[("id", JNum (NFin 12))]])
              ltac:(repeat split; discriminate)) as [H _].
  exact H.
Defined.

(** X3: when the id segment of "/api/users/<seg>" does not start with a
    digit, white space or a sign (it is empty, or starts with a letter or
    "/"), [parseInt] reads NaN, no record matches, and GET, PUT and DELETE
    answer 404 "User Not Found" without changing the state. *)
Theorem route_nan_id (seg : list ascii) (body : string) (w : world) :
  seg_starts_number seg = false ->
  let url := string_of_list_ascii (lit "/api/users/" ++ seg) in
  serverHandler "GET" url body w = (not_found, w) /\
  serverHandler "PUT" url body w = (not_found, w) /\
  serverHandler "DELETE" url body w = (not_found, w).
Proof. exact (serverHandler_nan_routes seg body w). Qed.

(** DELETE "/api/users/abc" answers 404 and keeps the record with id 1. *)
Lemma route_nan_id_witness :
  seg_starts_number (lit "abc") = false /\
  serverHandler "DELETE" "/api/users/abc" "" (fresh_world [[("id", JNum (NFin 1))]])
  = (not_found, fresh_world [[("id", JNum (NFin 1))]]).
Proof.
  split; [reflexivity|].
  destruct (route_nan_id (lit "abc") "" (fresh_world [[("id", JNum (NFin 1))]]) eq_refl)
    as (_ & _ & H).
  exact H.
Defined.

(** X4: a request the router does not know answers 404 "Route not found for
    <method> <url>" without changing the state: any method other than GET,
    POST, PUT and DELETE; any URL other than "/api/users" that does not start
    with "/api/users/"; and a POST to any URL other than "/api/users" (such as
    "/api/users/"). *)
Theorem route_not_found (method url body : string) (w : world) :
  let r := (Send 404 (message (String.append "Route not found for "
                                (String.append method (String.append " " url)))), w) in
  (~ In method ["GET"; "POST"; "PUT"; "DELETE"] -> serverHandler method url body w = r) /\
  (url <> "/api/users" -> starts_with_users url = false -> serverHandler method url body w = r) /\
  (method = "POST" -> url <> "/api/users" -> serverHandler method url body w = r).
Proof.
  cbv zeta. unfold serverHandler. split; [|split].
  - intros Hm.
    replace (String.eqb method "GET") with false
      by (symmetry; apply String.eqb_neq; intros ->; apply Hm; simpl; tauto).
    replace (String.eqb method "POST") with false
      by (symmetry; apply String.eqb_neq; intros ->; apply Hm; simpl; tauto).
    replace (String.eqb method "PUT") with false
      by (symmetry; apply String.eqb_neq; intros ->; apply Hm; simpl; tauto).
    replace (String.eqb method "DELETE") with false
      by (symmetry; apply String.eqb_neq; intros ->; apply Hm; simpl; tauto).
    reflexivity.
  - intros Hu Hs. apply String.eqb_neq in Hu. rewrite Hu, Hs, !andb_false_r. reflexivity.
  - intros -> Hu. apply String.eqb_neq in Hu. rewrite Hu, andb_false_r.
    reflexivity.
Qed.

(** ** Request bodies *)

Lemma post_users_route (body : string) (w : world) :
  serverHandler "POST" "/api/users" body w = createUser_req body w.
Proof. reflexivity. Qed.

Lemma parseRequestBody_text (body : string) (v : json) (rest : list ascii) :
  body <> "" -> json_parse body = POk v rest -> parseRequestBody body = BodyOk v.
Proof.
  intros Hne Hp. unfold parseRequestBody.
  replace (String.eqb body "") with false by (symmetry; apply String.eqb_neq; exact Hne).
  rewrite Hp. reflexivity.
Qed.

(** X5: a POST to /api/users changes nothing and answers 400 "Name is a
    required field" when the body is empty (read as [{}]), 400 "Invalid
    JSON" when the body is not JSON, and 400 with the TypeError message when
    the body is the JSON [null]. *)
Theorem post_body_errors (body : string) (w : world) :
  (body = "" -> serverHandler "POST" "/api/users" body w = (name_required, w)) /\
  (body <> "" -> json_parse body = PErr ->
     serverHandler "POST" "/api/users" body w = (Send 400 (message "Invalid JSON"), w)) /\
  (body <> "" -> json_parse body = POk JNull [] ->
     serverHandler "POST" "/api/users" body w = (null_name, w)).
Proof.
  rewrite post_users_route. unfold createUser_req. split; [|split].
  - intros ->. reflexivity.
  - intros Hne Hp. unfold parseRequestBody.
    replace (String.eqb body "") with false by (symmetry; apply String.eqb_neq; exact Hne).
    rewrite Hp. reflexivity.
  - intros Hne Hp. rewrite (parseRequestBody_text body JNull [] Hne Hp). reflexivity.
Qed.

(** The bodies [1.] (a number cut after its point) and [[1.5, 2] (an
    array cut before its closing bracket) are not JSON. *)
Lemma post_body_errors_witness :
  serverHandler "POST" "/api/users" "1." (fresh_world [])
  = (Send 400 (message "Invalid JSON"), fresh_world []) /\
  serverHandler "POST" "/api/users" "[1.5, 2" (fresh_world [])
  = (Send 400 (message "Invalid JSON"), fresh_world []).
Proof.
  split.
  - refine (proj1 (proj2 (post_body_errors "1." (fresh_world []))) _ _);
      [discriminate | reflexivity].
  - refine (proj1 (proj2 (post_body_errors "[1.5, 2" (fresh_world []))) _ _);
      [discriminate | reflexivity].
Defined.

(** X6: [updateUser] looks the id up before it reads the body: with no
    record of that id it answers 404 "User Not Found" whatever the body,
    even one that is not JSON; with a record of that id, an empty body
    answers 400 "Name is a required field" and a body that is not JSON 400
    "Invalid JSON", the state unchanged in every case. *)
Theorem put_request_errors (id : num) (body : string) (w : world) :
  (findIndex (id_is id) (users w) = None -> updateUser_req id body w = (not_found, w)) /\
  (forall i, findIndex (id_is id) (users w) = Some i ->
     (body = "" -> updateUser_req id body w = (name_required, w)) /\
     (body <> "" -> json_parse body = PErr ->
        updateUser_req id body w = (Send 400 (message "Invalid JSON"), w))).
Proof.
  unfold updateUser_req. split.
  - intros Hi. rewrite Hi. reflexivity.
  - intros i Hi. rewrite Hi. split.
    + intros ->. simpl. unfold updateUser. rewrite Hi. reflexivity.
    + intros Hne Hp. unfold parseRequestBody.
      replace (String.eqb body "") with false by (symmetry; apply String.eqb_neq; exact Hne).
      rewrite Hp. reflexivity.
Qed.

(** On a store with the record of id 1, a PUT of the body [1.] to id 2
    answers 404 and to id 1 answers 400 "Invalid JSON". *)
Lemma put_request_errors_witness :
  updateUser_req (NFin 2) "1." (fresh_world [[("id", JNum (NFin 1)); ("name", JStr "a")]])
  = (not_found, fresh_world [[("id", JNum (NFin 1)); ("name", JStr "a")]]) /\
  updateUser_req (NFin 1) "1." (fresh_world [[("id", JNum (NFin 1)); ("name", JStr "a")]])
  = (Send 400 (message "Invalid JSON"), fresh_world [[("id", JNum (NFin 1)); ("name", JStr "a")]]).
Proof.
  destruct (put_request_errors (NFin 2) "1." (fresh_world [[("id", JNum (NFin 1)); ("name", JStr "a")]]))
    as [H1 _].
  destruct (put_request_errors (NFin 1) "1." (fresh_world [[("id", JNum (NFin 1)); ("name", JStr "a")]]))
    as [_ H2].
  split; [exact (H1 eq_refl)|].
  exact (proj2 (H2 0%nat eq_refl) ltac:(discriminate) eq_refl).
Defined.

(** ** Handlers in sequence *)

Lemma safe_ids_in (l : list obj) (v : obj) :
  safe_ids l = true -> In v l -> exists z, get v "id" = Some (JNum (NFin z)).
Proof.
  intros H Hin. unfold safe_ids in H. rewrite forallb_forall in H.
  specialize (H v Hin). unfold safe_id in H.
  destruct (get v "id") as [[| | [z|m0 e0| | |] | | |]|]; try discriminate. eauto.
Qed.

Lemma safe_ids_remove (l1 l2 : list obj) (u : obj) :
  safe_ids (l1 ++ u :: l2) = true -> safe_ids (l1 ++ l2) = true.
Proof.
  unfold safe_ids. rewrite !forallb_app. cbn [forallb].
  intros H. apply andb_prop in H as [H1 H2]. apply andb_prop in H2 as [_ H2].
  rewrite H1, H2. reflexivity.
Qed.

Lemma id_is_fin (n z : Z) (v : obj) :
  get v "id" = Some (JNum (NFin z)) -> id_is (NFin n) v = Z.eqb z n.
Proof. intros H. unfold id_is. rewrite H. reflexivity. Qed.

Lemma findIndex_first (f : obj -> bool) (l1 l2 : list obj) (u : obj) :
  (forall v, In v l1 -> f v = false) -> f u = true ->
  findIndex f (l1 ++ u :: l2) = Some (length l1).
Proof.
  induction l1 as [|x l1 IH]; intros Hl Hu; simpl; [rewrite Hu; reflexivity|].
  rewrite (Hl x (or_introl eq_refl)), IH; [reflexivity| |exact Hu].
  intros v Hv. apply Hl. right. exact Hv.
Qed.

(** A successful [createUser], as the handler computes it. *)
Lemma createUser_ok (w : world) (fs : obj) :
  write_fault w = None -> safe_ids (users w) = true -> truthy (get fs "name") = true ->
  let created := set fs "id" (JNum (NFin (id_max (users w) + 1))) in
  let text := json_stringify (JArr (map JObj (users w ++ [created]))) in
  createUser (JObj fs) w =
    (Send 201 (JObj created),
     mkWorld (users w ++ [created]) (Present text) None (writes w ++ [text])).
Proof.
  intros Hf Hs Hn. cbv zeta.
  destruct (next_id_safe _ Hs) as (Hm & Ha & _).
  unfold createUser. rewrite Hn. simpl negb. cbv iota. rewrite Hm, Ha.
  unfold writeData, with_users. cbn [users write_fault file writes]. rewrite Hf.
  reflexivity.
Qed.

(** The record created with id [id_max + 1] is the one [find] meets. *)
Lemma find_created (l : list obj) (fs : obj) :
  safe_ids l = true ->
  find (id_is (NFin (id_max l + 1))) (l ++ [set fs "id" (JNum (NFin (id_max l + 1)))])
  = Some (set fs "id" (JNum (NFin (id_max l + 1)))).
Proof.
  intros Hs. destruct (next_id_safe _ Hs) as (_ & _ & _ & Hlt).
  apply find_first.
  - intros v Hv. destruct (safe_ids_in l v Hs Hv) as (z & Hz).
    rewrite (id_is_fin _ z v Hz). apply Z.eqb_neq. specialize (Hlt v z Hv Hz). lia.
  - rewrite (id_is_fin _ (id_max l + 1) _ (get_set_same fs "id" _)). apply Z.eqb_refl.
Qed.

(** X7: on a collection whose ids are integers below 2^53 - 1, with the
    write succeeding, a POST to /api/users whose body is a JSON object with
    a truthy name answers 201 with the record under the id
    max(existing ids, 0) + 1, and a following GET of "/api/users/<that id>"
    answers 200 with that same record. *)
Theorem post_then_get (w : world) (body : string) (fs : obj) :
  write_fault w = None -> safe_ids (users w) = true -> body <> "" ->
  json_parse body = POk (JObj fs) [] -> truthy (get fs "name") = true ->
  let n := id_max (users w) + 1 in
  let created := set fs "id" (JNum (NFin n)) in
  let w' := snd (serverHandler "POST" "/api/users" body w) in
  fst (serverHandler "POST" "/api/users" body w) = Send 201 (JObj created) /\
  serverHandler "GET" (string_of_list_ascii (lit "/api/users/" ++ int_chars n)) "" w'
  = (Send 200 (JObj created), w').
Proof.
  intros Hf Hs Hne Hp Hn. cbv zeta.
  rewrite post_users_route. unfold createUser_req.
  rewrite (parseRequestBody_text body _ _ Hne Hp), (createUser_ok w fs Hf Hs Hn).
  cbn [fst snd]. split; [reflexivity|].
  destruct (serverHandler_id_routes (id_max (users w) + 1) [] ""
              (mkWorld (users w ++ [set fs "id" (JNum (NFin (id_max (users w) + 1)))])
                 (Present (json_stringify (JArr (map JObj (users w ++
                   [set fs "id" (JNum (NFin (id_max (users w) + 1)))])))))
                 None
                 (writes w ++ [json_stringify (JArr (map JObj (users w ++
                   [set fs "id" (JNum (NFin (id_max (users w) + 1)))])))]))
              I) as [Hg _].
  cbv zeta in Hg. rewrite app_nil_r in Hg. rewrite Hg.
  destruct (next_id_safe _ Hs) as (_ & _ & H0 & _).
  pose proof (id_max_lt (users w) 0 Hs ltac:(lia)) as Hlt.
  rewrite round_double_small by (unfold id_max in *; lia).
  unfold getUserById. cbn [users]. rewrite (find_created _ fs Hs). reflexivity.
Qed.

(** On an empty store, POST [{"name": "Diana"}] then GET /api/users/1. *)
Lemma post_then_get_witness :
  json_stringify (JObj [("name", JStr "Diana")]) <> "" /\
  json_parse (json_stringify (JObj [("name", JStr "Diana")])) = POk (JObj [("name", JStr "Diana")]) [] /\
  serverHandler "GET" "/api/users/1" ""
    (snd (serverHandler "POST" "/api/users" (json_stringify (JObj [("name", JStr "Diana")]))
            (fresh_world [])))
  = (Send 200 (JObj [("name", JStr "Diana"); ("id", JNum (NFin 1))]),
     snd (serverHandler "POST" "/api/users" (json_stringify (JObj [("name", JStr "Diana")]))
            (fresh_world []))).
Proof.
  split; [intros H; vm_compute in H; discriminate H|].
  split; [vm_compute; reflexivity|].
  destruct (post_then_get (fresh_world []) (json_stringify (JObj [("name", JStr "Diana")]))
              [("name", JStr "Diana")] eq_refl eq_refl
              ltac:(intros H; vm_compute in H; discriminate H)
              ltac:(vm_compute; reflexivity) eq_refl) as [_ H].
  exact H.
Defined.

(** A successful [updateUser] on the record at index [length l1]. *)
Lemma updateUser_ok (w : world) (id : num) (fs : obj) (l1 l2 : list obj) (u : obj) (nm : json) :
  write_fault w = None -> users w = l1 ++ u :: l2 ->
  findIndex (id_is id) (users w) = Some (length l1) ->
  get fs "name" = Some nm -> truthy (Some nm) = true ->
  let l' := l1 ++ set u "name" nm :: l2 in
  let text := json_stringify (JArr (map JObj l')) in
  updateUser id (JObj fs) w
  = (Send 200 (JObj (set u "name" nm)), mkWorld l' (Present text) None (writes w ++ [text])).
Proof.
  intros Hf Hl Hi Hnm Ht. cbv zeta.
  destruct (firstn_skipn_split l1 l2 u (length l1) eq_refl) as (Hfi & Hsk & Hnth).
  unfold updateUser. rewrite Hi, Hnm, Ht. simpl negb. cbv iota.
  rewrite Hl, Hnth, Hfi, Hsk.
  unfold writeData, with_users. cbn [users write_fault file writes]. rewrite Hf.
  reflexivity.
Qed.

Lemma id_is_set_name (id : num) (u : obj) (nm : json) :
  id_is id (set u "name" nm) = id_is id u.
Proof. unfold id_is. rewrite get_set_other by discriminate. reflexivity. Qed.

(** X8: with the write succeeding, after [updateUser id] renames the
    record found at index i, a GET of the same id answers 200 with the
    renamed record, and the id still leads to index i. *)
Theorem update_then_get (w : world) (id : num) (fs : obj) (i : nat) (u : obj) (nm : json) :
  write_fault w = None -> findIndex (id_is id) (users w) = Some i ->
  nth_error (users w) i = Some u -> get fs "name" = Some nm -> truthy (Some nm) = true ->
  let w' := snd (updateUser id (JObj fs) w) in
  getUserById id w' = (Send 200 (JObj (set u "name" nm)), w') /\
  findIndex (id_is id) (users w') = Some i.
Proof.
  intros Hf Hi Hu Hnm Ht. cbv zeta.
  destruct (findIndex_some _ _ _ Hi) as (l1 & u0 & l2 & Hl & Hlen & Hu0 & Hl1).
  destruct (firstn_skipn_split l1 l2 u0 i Hlen) as (_ & _ & Hnth).
  rewrite Hl, Hnth in Hu. injection Hu as <-.
  subst i. rewrite (updateUser_ok w id fs l1 l2 u0 nm Hf Hl Hi Hnm Ht). cbn [snd users].
  assert (Hu' : id_is id (set u0 "name" nm) = true) by (rewrite id_is_set_name; exact Hu0).
  unfold getUserById. cbn [users].
  rewrite (find_first _ _ _ _ Hl1 Hu'), (findIndex_first _ _ _ _ Hl1 Hu').
  split; reflexivity.
Qed.

(** On [[{id: 1, name: "Alice"}]], renaming id 1 to "Bob" then reading it. *)
Lemma update_then_get_witness :
  findIndex (id_is (NFin 1)) (users (fresh_world [[("id", JNum (NFin 1)); ("name", JStr "Alice")]]))
    = Some O /\
  getUserById (NFin 1) (snd (updateUser (NFin 1) (JObj [("name", JStr "Bob")])
                              (fresh_world [[("id", JNum (NFin 1)); ("name", JStr "Alice")]])))
  = (Send 200 (JObj [("id", JNum (NFin 1)); ("name", JStr "Bob")]),
     snd (updateUser (NFin 1) (JObj [("name", JStr "Bob")])
            (fresh_world [[("id", JNum (NFin 1)); ("name", JStr "Alice")]]))).
Proof.
  split; [reflexivity|].
  destruct (update_then_get (fresh_world [[("id", JNum (NFin 1)); ("name", JStr "Alice")]])
              (NFin 1) [("name", JStr "Bob")] O [("id", JNum (NFin 1)); ("name", JStr "Alice")]
              (JStr "Bob") eq_refl eq_refl eq_refl eq_refl eq_refl) as [H _].
  exact H.
Defined.

Lemma id_max_below (l : list obj) (a b : Z) :
  a < b -> (forall v z, In v l -> get v "id" = Some (JNum (NFin z)) -> z < b) ->
  fold_left id_max_step l a < b.
Proof.
  revert a. induction l as [|x l IH]; intros a Ha H; simpl; [exact Ha|].
  apply IH; [|intros v z Hv; apply H; right; exact Hv].
  unfold id_max_step. destruct (get x "id") as [[| | [z|m0 e0| | |] | | |]|] eqn:E; try exact Ha.
  specialize (H x z (or_introl eq_refl) E). lia.
Qed.

(** X9: ids are not kept for deleted records: on a collection with distinct
    integer ids below 2^53 - 1, with writes succeeding, after deleting the
    record holding the largest id m > 0, the next [createUser] gives the new
    record the id max(remaining ids, 0) + 1, which is at most m. *)
Theorem delete_max_then_create (w : world) (u : obj) (m : Z) (fs : obj) :
  ids_distinct (users w) = true -> safe_ids (users w) = true -> write_fault w = None ->
  In u (users w) -> get u "id" = Some (JNum (NFin m)) -> id_max (users w) = m -> 0 < m ->
  truthy (get fs "name") = true ->
  let w1 := snd (deleteUser (NFin m) w) in
  fst (createUser (JObj fs) w1)
  = Send 201 (JObj (set fs "id" (JNum (NFin (id_max (users w1) + 1)))))
  /\ id_max (users w1) + 1 <= m.
Proof.
  intros Hd Hs Hf Hin Hu Hm Hpos Hn. cbv zeta.
  assert (Hum : id_is (NFin m) u = true) by (rewrite (id_is_fin m m u Hu); apply Z.eqb_refl).
  destruct (findIndex (id_is (NFin m)) (users w)) as [i|] eqn:Hi;
    [|rewrite (findIndex_none _ _ Hi u Hin) in Hum; discriminate].
  destruct (findIndex_some _ _ _ Hi) as (l1 & u0 & l2 & Hl & Hlen & Hu0 & Hl1).
  destruct (firstn_skipn_split l1 l2 u0 i Hlen) as (Hfi & Hsk & _).
  assert (Hs' : safe_ids (l1 ++ l2) = true) by (rewrite Hl in Hs; exact (safe_ids_remove _ _ _ Hs)).
  assert (Hrest : forall v, In v (l1 ++ l2) -> id_is (NFin m) v = false)
    by (rewrite Hl in Hd; exact (ids_distinct_only _ _ _ _ Hd Hu0)).
  unfold deleteUser. rewrite Hi, Hl, Hfi, Hsk.
  unfold writeData, with_users. cbn [users write_fault file writes]. rewrite Hf.
  cbn [snd users].
  erewrite createUser_ok; [cbn [fst]; split; [reflexivity|] | reflexivity | exact Hs' | exact Hn].
  cbn [users]. cut (id_max (l1 ++ l2) < m); [lia|].
  apply id_max_below; [exact Hpos|].
  intros v z Hv Hz.
  assert (Hvin : In v (users w)).
  { rewrite Hl. apply in_app_or in Hv as [Hv|Hv]; apply in_or_app; [left|right; right]; exact Hv. }
  pose proof (id_max_in (users w) 0 z v Hvin Hz) as Hle. fold (id_max (users w)) in Hle.
  specialize (Hrest v Hv). rewrite (id_is_fin m z v Hz) in Hrest. apply Z.eqb_neq in Hrest.
  lia.
Qed.

(** On the records with ids 1 and 2, deleting id 2 then creating a record
    gives it the id 2 again. *)
Lemma delete_max_then_create_witness :
  fst (createUser (JObj [("name", JStr "c")])
         (snd (deleteUser (NFin 2) (fresh_world [[("id", JNum (NFin 1))]; [("id", JNum (NFin 2))]]))))
  = Send 201 (JObj [("name", JStr "c"); ("id", JNum (NFin 2))]).
Proof.
  destruct (delete_max_then_create (fresh_world [[("id", JNum (NFin 1))]; [("id", JNum (NFin 2))]])
              [("id", JNum (NFin 2))] 2 [("name", JStr "c")] eq_refl eq_refl eq_refl
              (or_intror (or_introl eq_refl)) eq_refl eq_refl ltac:(lia) eq_refl) as [H _].
  exact H.
Defined.

(** ** Failed writes and restarts *)













